(** * storage-client: a shallow embedding of the S3 / R2 adapters

    The development follows the four Python modules of the package:

    - [storage_interface.py]: the abstract base class with the
      singleton-per-class [__new__];
    - [s3_base.py]: the six operations written once over a boto3 client;
    - [s3.py] and [r2.py]: credential resolution, client creation and the
      URL format of each backend.

    Python objects live in an explicit heap, the class attribute [_instance]
    in two registry slots, and every call into boto3 or [os] goes through an
    interface ([Boto3]) whose functions act on an opaque outside state and
    may raise.  Exceptions do not roll the state back, so the monad is
    [World -> World * (exc + A)]. *)

From stdpp Require Import base option list strings gmap.
From Stdlib Require Import ZArith Ascii.

(** ** Exceptions *)

(** The classes of the exceptions that can travel through the adapter.
    [ValueError], [Exception] and [AttributeError] are the ones the package
    or the interpreter raise themselves; [ClientError] is
    [botocore.exceptions.ClientError]; [OtherError] stands for every other
    class library code may raise (named by its class name). *)
Inductive exc_class : Type :=
  | ValueError
  | Exception
  | AttributeError
  | ClientError
  | OtherError (name : string).

(** An exception object: its class and [str(e)]. *)
Record exc : Type := Exc { exc_type : exc_class; exc_str : string }.

(** [isinstance(e, ClientError)], the test of [except ClientError]. *)
Definition isinstance_ClientError (e : exc) : bool :=
  match exc_type e with
  | ClientError => true
  | _ => false
  end.

(** ** [os.path] (POSIX flavour) *)

Module posixpath.

Definition sep : ascii := "/"%char.

(** [s.rfind(c)]: the index of the last occurrence, [-1] when there is none. *)
Fixpoint rfind_from (c : ascii) (s : string) (i last : Z) : Z :=
  match s with
  | EmptyString => last
  | String a s' =>
      rfind_from c s' (i + 1)%Z (if Ascii.eqb a c then i else last)
  end.

Definition rfind (c : ascii) (s : string) : Z := rfind_from c s 0%Z (-1)%Z.

(** [s[i:]] and [s[:i]] for a non-negative index. *)
Fixpoint drop (n : nat) (s : string) : string :=
  match n, s with
  | O, _ => s
  | S _, EmptyString => EmptyString
  | S n', String _ s' => drop n' s'
  end.

Fixpoint take (n : nat) (s : string) : string :=
  match n, s with
  | O, _ => EmptyString
  | S _, EmptyString => EmptyString
  | S n', String a s' => String a (take n' s')
  end.

Definition slice_from (i : Z) (s : string) : string := drop (Z.to_nat i) s.
Definition slice_to (i : Z) (s : string) : string := take (Z.to_nat i) s.

(** [c * n] *)
Fixpoint repeat_char (c : ascii) (n : nat) : string :=
  match n with
  | O => EmptyString
  | S n' => String c (repeat_char c n')
  end.

(** [s.rstrip(c)] *)
Fixpoint rstrip (c : ascii) (s : string) : string :=
  match s with
  | EmptyString => EmptyString
  | String a s' =>
      let r := rstrip c s' in
      match r with
      | EmptyString => if Ascii.eqb a c then EmptyString else String a r
      | _ => String a r
      end
  end.

(** [c in s] *)
Fixpoint contains (c : ascii) (s : string) : bool :=
  match s with
  | EmptyString => false
  | String a s' => Ascii.eqb a c || contains c s'
  end.

(** [def basename(p): i = p.rfind(sep) + 1; return p[i:]] *)
Definition basename (p : string) : string :=
  let i := (rfind sep p + 1)%Z in
  slice_from i p.

(** [def dirname(p): i = p.rfind(sep) + 1; head = p[:i];
     if head and head != sep*len(head): head = head.rstrip(sep);
     return head] *)
Definition dirname (p : string) : string :=
  let i := (rfind sep p + 1)%Z in
  let head := slice_to i p in
  if negb (String.eqb head "")
     && negb (String.eqb head (repeat_char sep (String.length head)))
  then rstrip sep head
  else head.

End posixpath.

(** ** Python values of the constructor arguments and instance attributes *)

(** [x or y] on [Optional[str]] values: [x] when it is truthy (a non-empty
    string), [y] otherwise. *)
Definition truthy (v : option string) : bool :=
  match v with
  | Some s => negb (String.eqb s "")
  | None => false
  end.

Definition py_or (x y : option string) : option string :=
  if truthy x then x else y.

(** The keyword arguments of [boto3.client('s3', ...)]. *)
Record ClientConfig : Type := {
  aws_access_key_id : option string;
  aws_secret_access_key : option string;
  endpoint_url : option string;
  region_name : string
}.

(** A boto3 client handle; it is known by the configuration it was made
    from. *)
Record Client : Type := { client_config : ClientConfig }.

(** The value of an instance attribute: [None], a [str], or the client. *)
Inductive attr : Type :=
  | ANone
  | AStr (s : string)
  | AClient (c : Client).

Definition attr_of (v : option string) : attr :=
  match v with
  | Some s => AStr s
  | None => ANone
  end.

(** Truth value of an attribute, as [if not self.access_key] tests it. *)
Definition attr_truthy (v : attr) : bool :=
  match v with
  | ANone => false
  | AStr s => negb (String.eqb s "")
  | AClient _ => true
  end.

(** The attribute read back as an [Optional[str]] keyword argument. *)
Definition attr_str (v : attr) : option string :=
  match v with
  | AStr s => Some s
  | _ => None
  end.

(** [f'{v}'] *)
Definition attr_format (v : attr) : string :=
  match v with
  | ANone => "None"
  | AStr s => s
  | AClient _ => "<botocore.client.S3 object>"
  end.

(** ** Classes, instances and the world *)

(** The two concrete classes of the package.  [S3BaseStorage] is only ever
    used as their base: a program that called [S3BaseStorage(client)]
    itself would set [S3BaseStorage._instance], which both classes inherit,
    and is outside this model. *)
Inductive cls : Type := S3Storage | R2Storage.

Global Instance cls_eq_dec : EqDecision cls.
Proof. solve_decision. Defined.

(** An object: its class and its [__dict__]. *)
Record Instance : Type := {
  obj_class : cls;
  obj_dict : gmap string attr
}.

(** The shapes boto3 answers with. *)
Record S3Object : Type := {
  Key : string;
  Size : Z;
  LastModified : Z
}.

Record ListObjectsV2Response : Type := {
  Contents : option (list S3Object)
}.

Record HeadObjectResponse : Type := {
  ContentLength : Z;
  ContentType : option string;
  HeadLastModified : Z;
  Metadata : option (gmap string string)
}.

(** The dictionaries the adapter returns. *)
Record FileEntry : Type := {
  key : string;
  size : Z;
  last_modified : Z
}.

Record FileMetadata : Type := {
  content_length : Z;
  content_type : option string;
  meta_last_modified : Z;
  metadata : gmap string string
}.

(** A call that leaves the package: the boto3 client methods and
    [os.makedirs].  The world keeps the history of these calls. *)
Inductive call : Type :=
  | CallMakedirs (directory : string)
  | CallUpload (local_fpath bucket fpath_in_bucket : string)
  | CallDownload (bucket fpath_in_bucket local_fpath : string)
  | CallListObjects (bucket : string) (prefix : option string)
  | CallDeleteObject (bucket fpath_in_bucket : string)
  | CallHeadObject (bucket fpath_in_bucket : string).

(** What lies outside the package, over an outside state [Σ] (the remote
    service and the local file system): [boto3.client], the five client
    methods the adapter uses, and [os.makedirs(d, exist_ok=True)] with the
    observation [os.path.isdir].  Every call may raise.  [boto3_client]
    is given the keyword arguments only: what boto3 reads by itself from
    the environment or from configuration files is not part of the
    model. *)
Class Boto3 (Σ : Type) : Type := {
  boto3_client : ClientConfig -> exc + Client;
  client_upload_file :
    Client -> string -> string -> string -> Σ -> Σ * (exc + unit);
  client_download_file :
    Client -> string -> string -> string -> Σ -> Σ * (exc + unit);
  client_list_objects_v2 :
    Client -> string -> option string -> Σ ->
    Σ * (exc + ListObjectsV2Response);
  client_delete_object :
    Client -> string -> string -> Σ -> Σ * (exc + unit);
  client_head_object :
    Client -> string -> string -> Σ -> Σ * (exc + HeadObjectResponse);
  os_makedirs : string -> Σ -> Σ * (exc + unit);
  os_path_isdir : Σ -> string -> bool
}.

Record World (Σ : Type) : Type := {
  environ : gmap string string;
  heap : list Instance;
  S3Storage_instance : option nat;
  R2Storage_instance : option nat;
  outside : Σ;
  history : list call
}.

Arguments environ {Σ} _.
Arguments heap {Σ} _.
Arguments S3Storage_instance {Σ} _.
Arguments R2Storage_instance {Σ} _.
Arguments outside {Σ} _.
Arguments history {Σ} _.

(** ** The state-and-exception monad *)

Section Adapter.

Context {Σ : Type} `{!Boto3 Σ}.

Definition M (A : Type) : Type := World Σ -> World Σ * (exc + A).

#[global] Instance M_ret : MRet M := λ A (x : A) (w : World Σ), (w, inr x).

#[global] Instance M_bind : MBind M :=
  λ A B (f : A -> M B) (m : M A) (w : World Σ),
    match m w with
    | (w', inl e) => (w', inl e)
    | (w', inr x) => f x w'
    end.

Definition raise {A : Type} (e : exc) : M A := λ w, (w, inl e).

(** [try: body except ClientError as e: handler(e)] *)
Definition try_except_ClientError {A : Type}
    (body : M A) (handler : exc -> M A) : M A :=
  λ w,
    match body w with
    | (w', inl e) =>
        if isinstance_ClientError e then handler e w' else (w', inl e)
    | (w', inr x) => (w', inr x)
    end.

(** A value library code returned without touching the outside state. *)
Definition lift_result {A : Type} (r : exc + A) : M A := λ w, (w, r).

(** *** Updates of the world *)

Definition set_heap (h : list Instance) (w : World Σ) : World Σ :=
  {| environ := environ w; heap := h;
     S3Storage_instance := S3Storage_instance w;
     R2Storage_instance := R2Storage_instance w;
     outside := outside w; history := history w |}.

Definition set_outside (σ : Σ) (c : call) (w : World Σ) : World Σ :=
  {| environ := environ w; heap := heap w;
     S3Storage_instance := S3Storage_instance w;
     R2Storage_instance := R2Storage_instance w;
     outside := σ; history := history w ++ [c] |}.

Definition cls_instance (c : cls) (w : World Σ) : option nat :=
  match c with
  | S3Storage => S3Storage_instance w
  | R2Storage => R2Storage_instance w
  end.

Definition set_cls_instance (c : cls) (l : nat) (w : World Σ) : World Σ :=
  match c with
  | S3Storage =>
      {| environ := environ w; heap := heap w;
         S3Storage_instance := Some l;
         R2Storage_instance := R2Storage_instance w;
         outside := outside w; history := history w |}
  | R2Storage =>
      {| environ := environ w; heap := heap w;
         S3Storage_instance := S3Storage_instance w;
         R2Storage_instance := Some l;
         outside := outside w; history := history w |}
  end.

(** *** Primitive actions *)

(** [os.environ.get(k)] *)
Definition os_environ_get (k : string) : M (option string) :=
  λ w, (w, inr (environ w !! k)).

(** [x or os.environ.get(k)]: the environment is read only when [x] is
    falsy. *)
Definition or_environ (x : option string) (k : string) : M (option string) :=
  if truthy x then mret x else os_environ_get k.

(** The object with one attribute assigned, and the world with one object
    changed in place. *)
Definition set_attr (name : string) (v : attr) (o : Instance) : Instance :=
  {| obj_class := obj_class o; obj_dict := <[name := v]> (obj_dict o) |}.

Definition with_object (self : nat) (f : Instance -> Instance) (w : World Σ)
    : World Σ :=
  set_heap (alter f self (heap w)) w.

(** [self.name = v] *)
Definition setattr (self : nat) (name : string) (v : attr) : M unit :=
  λ w, (with_object self (set_attr name v) w, inr ()).

(** [self.name] *)
Definition getattr (self : nat) (name : string) : M attr :=
  λ w,
    match heap w !! self with
    | Some o =>
        match obj_dict o !! name with
        | Some v => (w, inr v)
        | None =>
            (w, inl (Exc AttributeError
                       ("object has no attribute '" +:+ name +:+ "'")))
        end
    | None =>
        (w, inl (Exc AttributeError
                   ("object has no attribute '" +:+ name +:+ "'")))
    end.

(** A call that leaves the package: it is entered in the history and runs
    on the outside state. *)
Definition outside_call {A : Type} (c : call) (f : Σ -> Σ * (exc + A))
    : M A :=
  λ w, let '(σ, r) := f (outside w) in (set_outside σ c w, r).

(** [cls._instance] read and assigned. *)
Definition read_cls_instance (c : cls) : M (option nat) :=
  λ w, (w, inr (cls_instance c w)).

Definition write_cls_instance (c : cls) (l : nat) : M unit :=
  λ w, (set_cls_instance c l w, inr ()).

(** The object a reference points to. *)
Definition deref (self : nat) : M (option Instance) :=
  λ w, (w, inr (heap w !! self)).

(** *** [storage_interface.py] *)

(** [object.__new__(cls)]: a fresh object with an empty [__dict__]. *)
Definition object__new__ (c : cls) : M nat :=
  λ w,
    (set_heap (heap w ++ [ {| obj_class := c; obj_dict := ∅ |} ]) w,
     inr (length (heap w))).

(** [def __new__(cls, *args, **kwargs):
       if cls._instance is None: cls._instance = super().__new__(cls)
       return cls._instance]

    The first assignment creates [_instance] in the class's own
    namespace, so each concrete class has its own slot. *)
Definition StorageInterface__new__ (c : cls) : M nat :=
  inst ← read_cls_instance c;
  match inst with
  | None =>
      self ← object__new__ c;
      write_cls_instance c self;;
      mret self
  | Some self => mret self
  end.

(** *** [s3_base.py]: construction *)

(** [def __init__(self, client): self.client = client] *)
Definition S3BaseStorage__init__ (self : nat) (client : Client) : M unit :=
  setattr self "client" (AClient client).

(** *** [s3.py] and [r2.py]: construction *)

Definition missing_message (missing_params : list string) (variables : string)
    : string :=
  "Hey! You forgot to provide these parameters: "
    +:+ String.concat ", " missing_params +:+ "! "
    +:+ "Either pass them directly or set these environment variables: "
    +:+ variables.

(** [if not self.name: missing_params.append(field)] *)
Definition check_attr (self : nat) (name field : string)
    (missing_params : list string) : M (list string) :=
  v ← getattr self name;
  if negb (attr_truthy v) then mret (missing_params ++ [field])
  else mret missing_params.

Definition region_or_auto (region : option string) : string :=
  match region with
  | None => "auto"
  | Some r => r
  end.

Definition S3Storage__init__ (self : nat)
    (access_key secret_access_key region : option string) : M unit :=
  ak ← or_environ access_key "S3_ACCESS_KEY_ID";
  setattr self "access_key" (attr_of ak);;
  sk ← or_environ secret_access_key "S3_SECRET_ACCESS_KEY";
  setattr self "secret_key" (attr_of sk);;
  missing_params ← check_attr self "access_key" "access_key" [];
  missing_params ←
    check_attr self "secret_key" "secret_access_key" missing_params;
  match missing_params with
  | _ :: _ =>
      raise (Exc ValueError
               (missing_message missing_params
                  "S3_ACCESS_KEY_ID, S3_SECRET_ACCESS_KEY"))
  | [] =>
      a ← getattr self "access_key";
      s ← getattr self "secret_key";
      client ← lift_result
        (boto3_client {| aws_access_key_id := attr_str a;
                         aws_secret_access_key := attr_str s;
                         endpoint_url := None;
                         region_name := region_or_auto region |});
      S3BaseStorage__init__ self client
  end.

Definition R2Storage__init__ (self : nat)
    (access_key secret_access_key account_id region : option string) : M unit :=
  ak ← or_environ access_key "R2_ACCESS_KEY_ID";
  setattr self "access_key" (attr_of ak);;
  sk ← or_environ secret_access_key "R2_SECRET_ACCESS_KEY";
  setattr self "secret_key" (attr_of sk);;
  ac ← or_environ account_id "R2_ACCOUNT_ID";
  setattr self "account_id" (attr_of ac);;
  missing_params ← check_attr self "access_key" "access_key" [];
  missing_params ←
    check_attr self "secret_key" "secret_access_key" missing_params;
  missing_params ← check_attr self "account_id" "account_id" missing_params;
  match missing_params with
  | _ :: _ =>
      raise (Exc ValueError
               (missing_message missing_params
                  "R2_ACCESS_KEY_ID, R2_SECRET_ACCESS_KEY, R2_ACCOUNT_ID"))
  | [] =>
      a ← getattr self "access_key";
      s ← getattr self "secret_key";
      i ← getattr self "account_id";
      client ← lift_result
        (boto3_client {| aws_access_key_id := attr_str a;
                         aws_secret_access_key := attr_str s;
                         endpoint_url :=
                           Some ("https://" +:+ attr_format i
                                   +:+ ".r2.cloudflarestorage.com");
                         region_name := region_or_auto region |});
      S3BaseStorage__init__ self client
  end.

(** The arguments of a constructor call. *)
Record Args : Type := {
  arg_access_key : option string;
  arg_secret_access_key : option string;
  arg_account_id : option string;
  arg_region : option string
}.

(** [cls.__init__(self, ...)]; [S3Storage] has no [account_id] parameter. *)
Definition cls__init__ (c : cls) (self : nat) (a : Args) : M unit :=
  match c with
  | S3Storage =>
      S3Storage__init__ self (arg_access_key a) (arg_secret_access_key a)
        (arg_region a)
  | R2Storage =>
      R2Storage__init__ self (arg_access_key a) (arg_secret_access_key a)
        (arg_account_id a) (arg_region a)
  end.

(** [cls(...)], that is [type.__call__]: [__new__], then [__init__] on
    the object it returned when that object is an instance of [cls]. *)
Definition construct (c : cls) (a : Args) : M nat :=
  self ← StorageInterface__new__ c;
  o ← deref self;
  match o with
  | Some o =>
      if decide (obj_class o = c) then cls__init__ c self a;; mret self
      else mret self
  | None => mret self
  end.

(** *** [s3.py] and [r2.py]: the storage URL *)

(** [return f's3://{bucket_name}/{fpath_in_bucket}'] *)
Definition S3Storage_get_storage_url (bucket_name fpath_in_bucket : string)
    : string :=
  "s3://" +:+ bucket_name +:+ "/" +:+ fpath_in_bucket.

(** [return f'r2://{bucket_name}/{fpath_in_bucket}'] *)
Definition R2Storage_get_storage_url (bucket_name fpath_in_bucket : string)
    : string :=
  "r2://" +:+ bucket_name +:+ "/" +:+ fpath_in_bucket.

Definition cls_get_storage_url (c : cls) : string -> string -> string :=
  match c with
  | S3Storage => S3Storage_get_storage_url
  | R2Storage => R2Storage_get_storage_url
  end.

(** [self._get_storage_url(bucket_name, fpath_in_bucket)], resolved on the
    class of [self]. *)
Definition _get_storage_url (self : nat) (bucket_name fpath_in_bucket : string)
    : M string :=
  o ← deref self;
  match o with
  | Some o =>
      mret (cls_get_storage_url (obj_class o) bucket_name fpath_in_bucket)
  | None =>
      raise (Exc AttributeError
               "object has no attribute '_get_storage_url'")
  end.

(** *** [s3_base.py]: the six operations *)

(** [self.client], about to be used as a boto3 client. *)
Definition self_client (self : nat) : M Client :=
  v ← getattr self "client";
  match v with
  | AClient c => mret c
  | _ => raise (Exc AttributeError "object is not a client")
  end.

Definition upload_file (self : nat) (local_fpath bucket_name : string)
    (fpath_in_bucket : option string) : M (string * string) :=
  let fpath_in_bucket :=
    match fpath_in_bucket with
    | None => posixpath.basename local_fpath
    | Some k => k
    end in
  try_except_ClientError
    (client ← self_client self;
     outside_call (CallUpload local_fpath bucket_name fpath_in_bucket)
       (client_upload_file client local_fpath bucket_name fpath_in_bucket);;
     url ← _get_storage_url self bucket_name fpath_in_bucket;
     mret (fpath_in_bucket, url))
    (λ e, raise (Exc Exception ("Upload failed: " +:+ exc_str e))).

(** [if directory: os.makedirs(directory, exist_ok=True)] *)
Definition ensure_directory (directory : string) : M unit :=
  if negb (String.eqb directory "")
  then outside_call (CallMakedirs directory) (os_makedirs directory)
  else mret ().

Definition download_file (self : nat) (bucket_name fpath_in_bucket : string)
    (local_fpath : option string) : M string :=
  let local_fpath :=
    match local_fpath with
    | None => posixpath.basename fpath_in_bucket
    | Some p => p
    end in
  let directory := posixpath.dirname local_fpath in
  ensure_directory directory;;
  try_except_ClientError
    (client ← self_client self;
     outside_call (CallDownload bucket_name fpath_in_bucket local_fpath)
       (client_download_file client bucket_name fpath_in_bucket local_fpath);;
     mret local_fpath)
    (λ e, raise (Exc Exception ("Download failed: " +:+ exc_str e))).

Definition file_entry (obj : S3Object) : FileEntry :=
  {| key := Key obj; size := Size obj; last_modified := LastModified obj |}.

Definition list_files (self : nat) (bucket_name : string)
    (prefix : option string) : M (list FileEntry) :=
  try_except_ClientError
    (client ← self_client self;
     response ←
       (if truthy prefix
        then outside_call (CallListObjects bucket_name prefix)
               (client_list_objects_v2 client bucket_name prefix)
        else outside_call (CallListObjects bucket_name None)
               (client_list_objects_v2 client bucket_name None));
     mret (file_entry <$> default [] (Contents response)))
    (λ e, raise (Exc Exception ("Listing failed: " +:+ exc_str e))).

Definition delete_file (self : nat) (bucket_name fpath_in_bucket : string)
    : M bool :=
  try_except_ClientError
    (client ← self_client self;
     outside_call (CallDeleteObject bucket_name fpath_in_bucket)
       (client_delete_object client bucket_name fpath_in_bucket);;
     mret true)
    (λ e, raise (Exc Exception ("Deletion failed: " +:+ exc_str e))).

Definition file_exists (self : nat) (bucket_name fpath_in_bucket : string)
    : M bool :=
  try_except_ClientError
    (client ← self_client self;
     outside_call (CallHeadObject bucket_name fpath_in_bucket)
       (client_head_object client bucket_name fpath_in_bucket);;
     mret true)
    (λ _, mret false).

Definition file_metadata (response : HeadObjectResponse) : FileMetadata :=
  {| content_length := ContentLength response;
     content_type := ContentType response;
     meta_last_modified := HeadLastModified response;
     metadata := default ∅ (Metadata response) |}.

Definition get_file_metadata (self : nat) (bucket_name fpath_in_bucket : string)
    : M FileMetadata :=
  try_except_ClientError
    (client ← self_client self;
     response ← outside_call (CallHeadObject bucket_name fpath_in_bucket)
       (client_head_object client bucket_name fpath_in_bucket);
     mret (file_metadata response))
    (λ e, raise (Exc Exception ("Failed to get metadata: " +:+ exc_str e))).

(** *** Programs that use the package *)

(** What a caller can do: construct a client, run one of the six
    operations on a reference it holds, or change the environment. *)
Inductive action : Type :=
  | Construct (c : cls) (a : Args)
  | UploadFile (self : nat) (local_fpath bucket_name : string)
      (fpath_in_bucket : option string)
  | DownloadFile (self : nat) (bucket_name fpath_in_bucket : string)
      (local_fpath : option string)
  | ListFiles (self : nat) (bucket_name : string) (prefix : option string)
  | DeleteFile (self : nat) (bucket_name fpath_in_bucket : string)
  | FileExists (self : nat) (bucket_name fpath_in_bucket : string)
  | GetFileMetadata (self : nat) (bucket_name fpath_in_bucket : string)
  | Putenv (k v : string)
  | Unsetenv (k : string).

Definition set_environ (env : gmap string string) (w : World Σ) : World Σ :=
  {| environ := env; heap := heap w;
     S3Storage_instance := S3Storage_instance w;
     R2Storage_instance := R2Storage_instance w;
     outside := outside w; history := history w |}.

(** The world after an action; the caller may catch what it raises. *)
Definition exec (a : action) (w : World Σ) : World Σ :=
  match a with
  | Construct c args => (construct c args w).1
  | UploadFile self l b k => (upload_file self l b k w).1
  | DownloadFile self b k l => (download_file self b k l w).1
  | ListFiles self b p => (list_files self b p w).1
  | DeleteFile self b k => (delete_file self b k w).1
  | FileExists self b k => (file_exists self b k w).1
  | GetFileMetadata self b k => (get_file_metadata self b k w).1
  | Putenv k v => set_environ (<[k := v]> (environ w)) w
  | Unsetenv k => set_environ (delete k (environ w)) w
  end.

Definition run (acts : list action) (w : World Σ) : World Σ :=
  foldl (λ w a, exec a w) w acts.

(** The world when the interpreter starts: no object, both [_instance]
    slots [None]. *)
Definition boot (env : gmap string string) (σ : Σ) : World Σ :=
  {| environ := env; heap := [];
     S3Storage_instance := None; R2Storage_instance := None;
     outside := σ; history := [] |}.

End Adapter.

(** ** The contract of [os.makedirs(d, exist_ok=True)] *)

(** [a] is [d] or one of the directories above it on the way to [d]. *)
Definition path_ancestor (a d : string) : Prop :=
  a ≠ "" ∧ (a = d ∨ ∃ rest, d = a +:+ "/" +:+ rest).

(** When it returns, the directory and every directory above it exist; when
    they all exist already it returns without an error and changes
    nothing. *)
Class MakedirsContract (Σ : Type) `{!Boto3 Σ} : Prop := {
  makedirs_creates :
    ∀ (d : string) (σ σ' : Σ),
      os_makedirs d σ = (σ', inr ()) →
      ∀ a, path_ancestor a d → os_path_isdir σ' a = true;
  makedirs_exist_ok :
    ∀ (d : string) (σ : Σ),
      (∀ a, path_ancestor a d → os_path_isdir σ a = true) →
      os_makedirs d σ = (σ, inr ())
}.

(** ** An in-memory service

    A small model of what is outside: a set of local directories and files,
    the objects of the remote buckets, and whether the endpoint can be
    reached.  It answers the way boto3 does: a missing object is a
    [ClientError] (HTTP 404), an unreachable endpoint is botocore's
    [EndpointConnectionError], which is not a [ClientError]. *)
Module Mem.

Record store : Type := {
  dirs : list string;
  files : list string;
  objects : list (string * S3Object);
  online : bool
}.

Definition not_found (operation : string) : exc :=
  Exc ClientError
    ("An error occurred (404) when calling the " +:+ operation
       +:+ " operation: Not Found").

Definition unreachable : exc :=
  Exc (OtherError "EndpointConnectionError")
    "Could not connect to the endpoint URL".

Definition is_object (bucket k : string) (o : string * S3Object) : bool :=
  String.eqb o.1 bucket && String.eqb (Key o.2) k.

Definition find_object (bucket k : string) (σ : store) : option S3Object :=
  snd <$> List.find (is_object bucket k) (objects σ).

Definition with_objects (os : list (string * S3Object)) (σ : store) : store :=
  {| dirs := dirs σ; files := files σ; objects := os; online := online σ |}.

Definition with_files (fs : list string) (σ : store) : store :=
  {| dirs := dirs σ; files := fs; objects := objects σ;
     online := online σ |}.

Definition with_dirs (ds : list string) (σ : store) : store :=
  {| dirs := ds; files := files σ; objects := objects σ;
     online := online σ |}.

Definition upload (_ : Client) (local_fpath bucket k : string) (σ : store)
    : store * (exc + unit) :=
  if online σ then
    (with_objects
       ((bucket, {| Key := k; Size := 0; LastModified := 0 |})
          :: List.filter (λ o, negb (is_object bucket k o)) (objects σ)) σ,
     inr ())
  else (σ, inl unreachable).

Definition download (_ : Client) (bucket k local_fpath : string) (σ : store)
    : store * (exc + unit) :=
  if online σ then
    match find_object bucket k σ with
    | Some _ => (with_files (local_fpath :: files σ) σ, inr ())
    | None => (σ, inl (not_found "HeadObject"))
    end
  else (σ, inl unreachable).

(** The keys of a bucket that start with the prefix; boto3 leaves
    ['Contents'] out of the answer when there is none. *)
Definition list_objects_v2 (_ : Client) (bucket : string)
    (prefix : option string) (σ : store)
    : store * (exc + ListObjectsV2Response) :=
  if online σ then
    let found :=
      List.filter
        (λ o, String.eqb o.1 bucket
              && String.prefix (default "" prefix) (Key o.2))
        (objects σ) in
    (σ, inr {| Contents :=
                 match found with
                 | [] => None
                 | _ => Some (snd <$> found)
                 end |})
  else (σ, inl unreachable).

Definition delete_object (_ : Client) (bucket k : string) (σ : store)
    : store * (exc + unit) :=
  if online σ then
    (with_objects
       (List.filter (λ o, negb (is_object bucket k o)) (objects σ)) σ,
     inr ())
  else (σ, inl unreachable).

Definition head_object (_ : Client) (bucket k : string) (σ : store)
    : store * (exc + HeadObjectResponse) :=
  if online σ then
    match find_object bucket k σ with
    | Some o =>
        (σ, inr {| ContentLength := Size o; ContentType := None;
                   HeadLastModified := LastModified o; Metadata := None |})
    | None => (σ, inl (not_found "HeadObject"))
    end
  else (σ, inl unreachable).

(** The prefixes of [acc +:+ s] that stop in front of a ["/"] of [s], and
    the whole of it. *)
Fixpoint ancestors_from (acc s : string) : list string :=
  match s with
  | EmptyString => [acc]
  | String c s' =>
      (if Ascii.eqb c "/" then [acc] else [])
        ++ ancestors_from (acc +:+ String c EmptyString) s'
  end.

Definition ancestors (d : string) : list string :=
  List.filter (λ a, negb (String.eqb a "")) (ancestors_from "" d).

Definition isdir (σ : store) (d : string) : bool :=
  bool_decide (d ∈ dirs σ).

Definition mkdir_missing (a : string) (ds : list string) : list string :=
  if bool_decide (a ∈ ds) then ds else a :: ds.

Definition makedirs (d : string) (σ : store) : store * (exc + unit) :=
  (with_dirs (foldr mkdir_missing (dirs σ) (ancestors d)) σ, inr ()).

#[global] Instance boto3 : Boto3 store := {|
  boto3_client cfg := inr {| client_config := cfg |};
  client_upload_file := upload;
  client_download_file := download;
  client_list_objects_v2 := list_objects_v2;
  client_delete_object := delete_object;
  client_head_object := head_object;
  os_makedirs := makedirs;
  os_path_isdir := isdir
|}.

(** A reachable service holding three objects in [mybucket]. *)
Definition example : store :=
  {| dirs := []; files := ["report.txt"];
     objects :=
       [("mybucket", {| Key := "a/b.txt"; Size := 3; LastModified := 100 |});
        ("mybucket", {| Key := "a/c.txt"; Size := 5; LastModified := 101 |});
        ("mybucket", {| Key := "z.txt"; Size := 7; LastModified := 102 |})];
     online := true |}.

(** The same service behind a dead network link. *)
Definition offline : store :=
  {| dirs := dirs example; files := files example;
     objects := objects example; online := false |}.

End Mem.

(** ** Vocabulary of the specification *)

(** *** Credentials *)

(** The required credential fields of each backend, by the names the
    error report uses. *)
Definition required_fields (c : cls) : list string :=
  match c with
  | S3Storage => ["access_key"; "secret_access_key"]
  | R2Storage => ["access_key"; "secret_access_key"; "account_id"]
  end.

(** The explicit constructor parameter of a field. *)
Definition explicit_value (a : Args) (field : string)
    : option string :=
  if String.eqb field "access_key" then arg_access_key a
  else if String.eqb field "secret_access_key" then arg_secret_access_key a
  else if String.eqb field "account_id" then arg_account_id a
  else None.

(** The environment variable a field falls back on. *)
Definition fallback_variable (c : cls) (field : string) : string :=
  match c with
  | S3Storage =>
      if String.eqb field "access_key" then "S3_ACCESS_KEY_ID"
      else "S3_SECRET_ACCESS_KEY"
  | R2Storage =>
      if String.eqb field "access_key" then "R2_ACCESS_KEY_ID"
      else if String.eqb field "secret_access_key" then "R2_SECRET_ACCESS_KEY"
      else "R2_ACCOUNT_ID"
  end.

(** The instance attribute a field is stored in. *)
Definition field_attribute (field : string) : string :=
  if String.eqb field "secret_access_key" then "secret_key" else field.

(** The resolved value of a field: what [explicit or environ.get(variable)]
    evaluates to. *)
Definition resolved (c : cls) (a : Args)
    (env : gmap string string) (field : string) : option string :=
  py_or (explicit_value a field) (env !! fallback_variable c field).

(** A field is missing when its resolved value is absent or empty. *)
Definition is_missing (v : option string) : bool :=
  match v with
  | None => true
  | Some s => String.eqb s ""
  end.

(** The required fields that are missing, in the order of the report. *)
Definition missing_fields (c : cls) (a : Args)
    (env : gmap string string) : list string :=
  List.filter (λ f, is_missing (resolved c a env f)) (required_fields c).

Definition variables_hint (c : cls) : string :=
  match c with
  | S3Storage => "S3_ACCESS_KEY_ID, S3_SECRET_ACCESS_KEY"
  | R2Storage => "R2_ACCESS_KEY_ID, R2_SECRET_ACCESS_KEY, R2_ACCOUNT_ID"
  end.

(** The configuration error that reports the fields [missing]. *)
Definition configuration_error (c : cls)
    (missing : list string) : exc :=
  Exc ValueError (missing_message missing (variables_hint c)).

(** The configuration handed to [boto3.client] once every field is
    resolved. *)
Definition resolved_config (c : cls) (a : Args)
    (env : gmap string string) : ClientConfig :=
  {| aws_access_key_id := resolved c a env "access_key";
     aws_secret_access_key := resolved c a env "secret_access_key";
     endpoint_url :=
       match c with
       | S3Storage => None
       | R2Storage =>
           Some ("https://"
                   +:+ attr_format (attr_of (resolved c a env "account_id"))
                   +:+ ".r2.cloudflarestorage.com")
       end;
     region_name := region_or_auto (arg_region a) |}.

(** *** Objects *)

Section Objects.

Context {Σ : Type} `{!Boto3 Σ}.

(** The attribute [name] of the object at [self], if both exist. *)
Definition attribute (w : World Σ) (self : nat) (name : string)
    : option attr :=
  o ← heap w !! self; obj_dict o !! name.

(** The credential a client holds for a field. *)
Definition credential (w : World Σ) (self : nat) (field : string)
    : option attr :=
  attribute w self (field_attribute field).

(** The slot of a class points to an object of that class. *)
Definition slot_ok (c : cls) (w : World Σ) : bool :=
  match cls_instance c w with
  | None => true
  | Some l =>
      match heap w !! l with
      | Some o => bool_decide (obj_class o = c)
      | None => false
      end
  end.

Definition wf (w : World Σ) : bool :=
  slot_ok S3Storage w && slot_ok R2Storage w.

(** The reference a constructor call of class [c] returns in [w]: the
    registered instance, or else the next free address. *)
Definition instance_ref (c : cls) (w : World Σ) : nat :=
  default (length (heap w)) (cls_instance c w).

(** The object once [__init__] has assigned the resolved credentials. *)
Definition store_credentials (c : cls) (a : Args) (env : gmap string string)
    (o : Instance) : Instance :=
  foldl (λ o f, set_attr (field_attribute f) (attr_of (resolved c a env f)) o)
    o (required_fields c).

(** What [__init__] comes to on an object that exists: the credentials are
    stored, then either the missing fields are reported, or [boto3.client]
    fails, or the client is stored. *)
Definition init_outcome (c : cls) (a : Args) (self : nat) (w : World Σ)
    : World Σ * (exc + unit) :=
  let w1 := with_object self (store_credentials c a (environ w)) w in
  match missing_fields c a (environ w) with
  | (_ :: _) as missing => (w1, inl (configuration_error c missing))
  | [] =>
      match boto3_client (resolved_config c a (environ w)) with
      | inl e => (w1, inl e)
      | inr client =>
          (with_object self (set_attr "client" (AClient client)) w1, inr ())
      end
  end.

(** The part of the world the package owns: environment, heap and the two
    [_instance] slots. *)
Definition inner (w : World Σ)
    : gmap string string * list Instance * option nat * option nat :=
  (environ w, heap w, S3Storage_instance w, R2Storage_instance w).

(** An action that leaves that part alone, whatever it returns or raises. *)
Definition preserves_inner {A : Type} (m : M A) : Prop :=
  ∀ w, inner (m w).1 = inner w.

(** An action that makes at most [n] calls outside the package, whatever
    it returns or raises: the history grows by that many entries at most. *)
Definition makes_calls {A : Type} (n : nat) (m : M A) : Prop :=
  ∀ w : World Σ, ∃ calls,
    history (m w).1 = history w ++ calls ∧ length calls ≤ n.

(** What a constructor call comes to: [__init__] runs on the object
    [__new__] returned, and the call returns that object. *)
Definition construct_outcome (c : cls) (a : Args) (w : World Σ)
    : World Σ * (exc + nat) :=
  let self := instance_ref c w in
  match init_outcome c a self (StorageInterface__new__ c w).1 with
  | (w', inl e) => (w', inl e)
  | (w', inr _) => (w', inr self)
  end.

(** The action is a constructor call of class [c]. *)
Definition constructs (c : cls) (a : action) : bool :=
  match a with
  | Construct c' _ => bool_decide (c' = c)
  | _ => false
  end.

End Objects.

(** *** Paths and keys *)

(** [k] is the final segment of [p]: it holds no separator and what stands
    in front of it in [p] is empty or ends with one. *)
Definition no_sep (k : string) : Prop :=
  posixpath.contains posixpath.sep k = false.

Definition final_segment (k p : string) : Prop :=
  no_sep k ∧
  ∃ head, p = head +:+ k ∧ (head = "" ∨ ∃ h, head = h +:+ "/").

(** *** Storage URLs *)

(** The scheme token of each backend, and the locator
    [scheme://bucket/key]. *)
Definition scheme (c : cls) : string :=
  match c with
  | S3Storage => "s3"
  | R2Storage => "r2"
  end.

Definition formatUrl (scheme bucket key : string) : string :=
  scheme +:+ "://" +:+ bucket +:+ "/" +:+ key.

(** *** Operation families and their failure reports *)

Inductive family : Type :=
  | Upload | Download | Listing | Deletion | MetadataLookup.

(** The text that marks a failure of each family. *)
Definition failure_prefix (f : family) : string :=
  match f with
  | Upload => "Upload failed: "
  | Download => "Download failed: "
  | Listing => "Listing failed: "
  | Deletion => "Deletion failed: "
  | MetadataLookup => "Failed to get metadata: "
  end.

(** The failure of family [f] that wraps the message of [e]. *)
Definition wrapped (f : family) (e : exc) : exc :=
  Exc Exception (failure_prefix f +:+ exc_str e).


(** *** Operations as actions *)

(** The action is one of the six operations of [s3_base.py]. *)
Definition is_operation (act : action) : bool :=
  match act with
  | Construct _ _ | Putenv _ _ | Unsetenv _ => false
  | _ => true
  end.

(** The calls an operation may make outside the package: one boto3 call,
    and [os.makedirs] before it for a download. *)
Definition call_budget (act : action) : nat :=
  match act with
  | DownloadFile _ _ _ _ => 2
  | _ => 1
  end.

(** *** Empty strings *)

(** An explicit parameter with the empty string taken for an absent one. *)
Definition blank_as_absent (v : option string) : option string :=
  match v with
  | Some s => if String.eqb s "" then None else Some s
  | None => None
  end.

Definition blanks_removed (a : Args) : Args :=
  {| arg_access_key := blank_as_absent (arg_access_key a);
     arg_secret_access_key := blank_as_absent (arg_secret_access_key a);
     arg_account_id := blank_as_absent (arg_account_id a);
     arg_region := arg_region a |}.

(** ** Scenarios *)

Module Scenario.

Definition keys (access_key secret_access_key : option string) : Args :=
  {| arg_access_key := access_key;
     arg_secret_access_key := secret_access_key;
     arg_account_id := None;
     arg_region := None |}.

Definition first_keys : Args := keys (Some "AKIA-ONE") (Some "secret-one").
Definition second_keys : Args := keys (Some "AKIA-TWO") (Some "secret-two").

(** Only [access_key] is given. *)
Definition only_access_key : Args := keys (Some "AKIA-ONE") None.

(** [access_key] is given as the empty string. *)
Definition blank_access_key : Args := keys (Some "") (Some "secret-one").

Definition r2_keys : Args :=
  {| arg_access_key := Some "r2-key";
     arg_secret_access_key := Some "r2-secret";
     arg_account_id := Some "acct";
     arg_region := None |}.

(** The handle [boto3.client] makes from [first_keys], and from [r2_keys]. *)
Definition s3_client : Client :=
  {| client_config :=
       {| aws_access_key_id := Some "AKIA-ONE";
          aws_secret_access_key := Some "secret-one";
          endpoint_url := None;
          region_name := "auto" |} |}.

Definition r2_client : Client :=
  {| client_config :=
       {| aws_access_key_id := Some "r2-key";
          aws_secret_access_key := Some "r2-secret";
          endpoint_url := Some "https://acct.r2.cloudflarestorage.com";
          region_name := "auto" |} |}.

(** An environment that sets the S3 access key only. *)
Definition s3_environ : gmap string string :=
  {[ "S3_ACCESS_KEY_ID" := "AKIA-ENV" ]}.

(** An environment that sets the S3 access key to the empty string. *)
Definition blank_environ : gmap string string :=
  {[ "S3_ACCESS_KEY_ID" := "" ]}.

(** The interpreter just started, facing the example service. *)
Definition started : World Mem.store := boot ∅ Mem.example.

(** ... with an S3 client constructed from [first_keys]: it is object 0. *)
Definition with_s3 : World Mem.store :=
  (construct S3Storage first_keys started).1.

(** ... with an R2 client constructed as well: it is object 1. *)
Definition with_both : World Mem.store :=
  (construct R2Storage r2_keys with_s3).1.

(** An S3 client whose service cannot be reached. *)
Definition cut_off : World Mem.store :=
  (construct S3Storage first_keys (boot ∅ Mem.offline)).1.

End Scenario.

(** * Proofs *)

Section Run.

Context {Σ : Type} `{!Boto3 Σ}.
Implicit Types (w : World Σ) (c : cls) (a : Args) (self : nat).

(** ** Running the monad *)

Lemma bind_run {A B : Type} (m : @M Σ A) (f : A -> @M Σ B) w :
  (m ≫= f) w =
    match m w with
    | (w', inl e) => (w', inl e)
    | (w', inr x) => f x w'
    end.
Proof. reflexivity. Qed.

Lemma or_environ_run x k w :
  or_environ x k w = (w, inr (py_or x (environ w !! k))).
Proof. unfold or_environ, py_or. destruct (truthy x); reflexivity. Qed.

Lemma lift_run {A : Type} (r : exc + A) w : lift_result r w = (w, r).
Proof. reflexivity. Qed.

Lemma with_object_lookup self f w o :
  heap w !! self = Some o → heap (with_object self f w) !! self = Some (f o).
Proof.
  intros H. unfold with_object; simpl. by rewrite list_lookup_alter_eq, H.
Qed.

Lemma with_object_lookup_ne self f w l :
  self ≠ l → heap (with_object self f w) !! l = heap w !! l.
Proof. intros H. unfold with_object; simpl. by rewrite list_lookup_alter_ne. Qed.

Lemma with_object_compose self f g w :
  with_object self g (with_object self f w) = with_object self (g ∘ f) w.
Proof.
  unfold with_object, set_heap; simpl. f_equal. apply list_alter_alter_eq.
Qed.

Lemma getattr_run self name w o v :
  heap w !! self = Some o → obj_dict o !! name = Some v →
  getattr self name w = (w, inr v).
Proof. intros H1 H2. unfold getattr. by rewrite H1, H2. Qed.

Lemma attr_truthy_of v : attr_truthy (attr_of v) = truthy v.
Proof. by destruct v. Qed.

Lemma is_missing_truthy v : is_missing v = negb (truthy v).
Proof. destruct v; simpl; [by rewrite negb_involutive | done]. Qed.

Lemma attr_str_of v : attr_str (attr_of v) = v.
Proof. by destruct v. Qed.

Lemma check_attr_run self name field missing w o v :
  heap w !! self = Some o → obj_dict o !! name = Some (attr_of v) →
  check_attr self name field missing w =
    (w, inr (if is_missing v then missing ++ [field] else missing)).
Proof.
  intros H1 H2. unfold check_attr.
  rewrite bind_run, (getattr_run _ _ _ _ _ H1 H2).
  rewrite attr_truthy_of, is_missing_truthy. by destruct (truthy v).
Qed.

(** ** Construction *)

(** [__init__] of either class computes [init_outcome]. *)
Lemma S3Storage__init__run self a w o :
  heap w !! self = Some o →
  cls__init__ S3Storage self a w = init_outcome S3Storage a self w.
Proof.
  intros Ho. unfold cls__init__, S3Storage__init__, init_outcome.
  rewrite bind_run, or_environ_run, bind_run. unfold setattr at 1.
  rewrite bind_run, or_environ_run, bind_run. unfold setattr at 1.
  rewrite with_object_compose.
  change (environ (with_object _ _ w)) with (environ w).
  set (F := _ ∘ _).
  change F with (store_credentials S3Storage a (environ w)).
  pose proof (with_object_lookup self F w o Ho) as HF.
  set (va := resolved S3Storage a (environ w) "access_key").
  set (vs := resolved S3Storage a (environ w) "secret_access_key").
  assert (Ha : obj_dict (F o) !! "access_key" = Some (attr_of va))
    by (subst F; simpl; by simplify_map_eq).
  assert (Hs : obj_dict (F o) !! "secret_key" = Some (attr_of vs))
    by (subst F; simpl; by simplify_map_eq).
  rewrite bind_run, (check_attr_run _ _ _ _ _ _ _ HF Ha).
  rewrite bind_run, (check_attr_run _ _ _ _ _ _ _ HF Hs).
  unfold missing_fields; simpl. fold va vs.
  destruct (is_missing va), (is_missing vs); simpl; try reflexivity.
  rewrite bind_run, (getattr_run _ _ _ _ _ HF Ha).
  rewrite bind_run, (getattr_run _ _ _ _ _ HF Hs).
  rewrite bind_run, lift_run, !attr_str_of.
  unfold resolved_config; simpl. fold va vs.
  destruct (boto3_client _); reflexivity.
Qed.

Lemma R2Storage__init__run self a w o :
  heap w !! self = Some o →
  cls__init__ R2Storage self a w = init_outcome R2Storage a self w.
Proof.
  intros Ho. unfold cls__init__, R2Storage__init__, init_outcome.
  rewrite bind_run, or_environ_run, bind_run. unfold setattr at 1.
  rewrite bind_run, or_environ_run, bind_run. unfold setattr at 1.
  rewrite with_object_compose.
  rewrite bind_run, or_environ_run, bind_run. unfold setattr at 1.
  rewrite with_object_compose.
  change (environ (with_object _ _ w)) with (environ w).
  set (F := _ ∘ _).
  change F with (store_credentials R2Storage a (environ w)).
  pose proof (with_object_lookup self F w o Ho) as HF.
  set (va := resolved R2Storage a (environ w) "access_key").
  set (vs := resolved R2Storage a (environ w) "secret_access_key").
  set (vi := resolved R2Storage a (environ w) "account_id").
  assert (Ha : obj_dict (F o) !! "access_key" = Some (attr_of va))
    by (subst F; simpl; by simplify_map_eq).
  assert (Hs : obj_dict (F o) !! "secret_key" = Some (attr_of vs))
    by (subst F; simpl; by simplify_map_eq).
  assert (Hi : obj_dict (F o) !! "account_id" = Some (attr_of vi))
    by (subst F; simpl; by simplify_map_eq).
  rewrite bind_run, (check_attr_run _ _ _ _ _ _ _ HF Ha).
  rewrite bind_run, (check_attr_run _ _ _ _ _ _ _ HF Hs).
  rewrite bind_run, (check_attr_run _ _ _ _ _ _ _ HF Hi).
  unfold missing_fields; simpl. fold va vs vi.
  destruct (is_missing va), (is_missing vs), (is_missing vi); simpl;
    try reflexivity.
  rewrite bind_run, (getattr_run _ _ _ _ _ HF Ha).
  rewrite bind_run, (getattr_run _ _ _ _ _ HF Hs).
  rewrite bind_run, (getattr_run _ _ _ _ _ HF Hi).
  rewrite bind_run, lift_run, !attr_str_of.
  unfold resolved_config; simpl. fold va vs vi.
  destruct (boto3_client _); reflexivity.
Qed.

Lemma cls__init__run c self a w o :
  heap w !! self = Some o →
  cls__init__ c self a w = init_outcome c a self w.
Proof.
  destruct c; [apply S3Storage__init__run | apply R2Storage__init__run].
Qed.

(** [__new__] returns the registered instance, or registers a fresh object. *)
Lemma new_run c w :
  StorageInterface__new__ c w =
    match cls_instance c w with
    | Some self => (w, inr self)
    | None =>
        (set_cls_instance c (length (heap w))
           (set_heap (heap w ++ [ {| obj_class := c; obj_dict := ∅ |} ]) w),
         inr (length (heap w)))
    end.
Proof.
  unfold StorageInterface__new__. rewrite bind_run. unfold read_cls_instance.
  by destruct (cls_instance c w).
Qed.

Lemma new_result c w :
  (StorageInterface__new__ c w).2 = inr (instance_ref c w).
Proof.
  rewrite new_run. unfold instance_ref. by destruct (cls_instance c w).
Qed.

Lemma new_environ c w :
  environ (StorageInterface__new__ c w).1 = environ w.
Proof. rewrite new_run. by destruct (cls_instance c w), c. Qed.

Lemma new_slot c w :
  cls_instance c (StorageInterface__new__ c w).1 = Some (instance_ref c w).
Proof.
  rewrite new_run. unfold instance_ref.
  destruct (cls_instance c w) eqn:E; simpl; [done | by destruct c].
Qed.

Lemma slot_ok_lookup c w l :
  slot_ok c w = true → cls_instance c w = Some l →
  ∃ o, heap w !! l = Some o ∧ obj_class o = c.
Proof.
  unfold slot_ok. intros H E. rewrite E in H.
  destruct (heap w !! l) as [o|]; [| done].
  exists o. split; [done | by apply bool_decide_eq_true in H].
Qed.

Lemma wf_slot c w : wf w = true → slot_ok c w = true.
Proof.
  unfold wf. intros [H1 H2]%andb_true_iff. by destruct c.
Qed.

(** The object a constructor call works on exists and has the class. *)
Lemma new_lookup c w :
  wf w = true →
  ∃ o, heap (StorageInterface__new__ c w).1 !! instance_ref c w = Some o
       ∧ obj_class o = c.
Proof.
  intros Hwf. rewrite new_run. unfold instance_ref.
  destruct (cls_instance c w) as [l|] eqn:E; simpl.
  - by apply slot_ok_lookup; [apply wf_slot |].
  - exists {| obj_class := c; obj_dict := ∅ |}. split; [| done].
    destruct c; simpl; by rewrite lookup_app_r, Nat.sub_diag.
Qed.

(** A constructor call computes [construct_outcome]. *)
Lemma construct_run c a w :
  wf w = true → construct c a w = construct_outcome c a w.
Proof.
  intros Hwf. destruct (new_lookup c w Hwf) as (o & Ho & Hc).
  unfold construct, construct_outcome.
  rewrite bind_run. pose proof (new_result c w) as Hr.
  destruct (StorageInterface__new__ c w) as [w0 r]; simpl in *. subst r.
  rewrite bind_run. unfold deref. rewrite Ho.
  destruct (decide (obj_class o = c)) as [_ | ?]; [| done].
  rewrite bind_run, (cls__init__run _ _ _ _ _ Ho).
  by destruct (init_outcome c a (instance_ref c w) w0) as [w' [e | []]].
Qed.

(** ** The registry stays well formed *)

Lemma slot_ok_with_object c self f w :
  (∀ o, obj_class (f o) = obj_class o) →
  slot_ok c (with_object self f w) = slot_ok c w.
Proof.
  intros Hf. unfold slot_ok.
  replace (cls_instance c (with_object self f w)) with (cls_instance c w)
    by by destruct c.
  destruct (cls_instance c w) as [l|]; [| done].
  unfold with_object; simpl. rewrite list_lookup_alter.
  destruct (decide (self = l)) as [-> |]; [| done].
  destruct (heap w !! l) as [o|]; simpl; [| done]. by rewrite Hf.
Qed.

Lemma wf_with_object self f w :
  (∀ o, obj_class (f o) = obj_class o) →
  wf (with_object self f w) = wf w.
Proof. intros Hf. unfold wf. by rewrite !slot_ok_with_object. Qed.

Lemma store_credentials_class c a env o :
  obj_class (store_credentials c a env o) = obj_class o.
Proof. by destruct c. Qed.

Lemma slot_ok_new c w :
  wf w = true → slot_ok c (StorageInterface__new__ c w).1 = true.
Proof.
  intros Hwf. destruct (new_lookup c w Hwf) as (o & Ho & Hc).
  unfold slot_ok. rewrite new_slot, Ho. by apply bool_decide_eq_true.
Qed.

Lemma slot_ok_new_other c c' w :
  c ≠ c' → slot_ok c' w = true →
  slot_ok c' (StorageInterface__new__ c w).1 = true.
Proof.
  intros Hne H. rewrite new_run.
  destruct (cls_instance c w) as [l|] eqn:E; simpl; [done |].
  unfold slot_ok in *.
  replace (cls_instance c' (set_cls_instance c (length (heap w))
             (set_heap (heap w ++ [ {| obj_class := c; obj_dict := ∅ |} ]) w)))
    with (cls_instance c' w) by by destruct c, c'.
  destruct (cls_instance c' w) as [l|]; [| done].
  replace (heap (set_cls_instance c (length (heap w))
             (set_heap (heap w ++ [ {| obj_class := c; obj_dict := ∅ |} ]) w)))
    with (heap w ++ [ {| obj_class := c; obj_dict := ∅ |} ]) by by destruct c.
  destruct (heap w !! l) as [o|] eqn:El; [| done].
  by rewrite (lookup_app_l_Some _ _ _ _ El).
Qed.

Lemma wf_new c w : wf w = true → wf (StorageInterface__new__ c w).1 = true.
Proof.
  intros Hwf. unfold wf. apply andb_true_iff.
  destruct c; split;
    (by apply slot_ok_new) || (apply slot_ok_new_other; [done | by apply wf_slot]).
Qed.

Lemma wf_init_outcome c a self w :
  wf w = true → wf (init_outcome c a self w).1 = true.
Proof.
  intros Hwf. unfold init_outcome.
  destruct (missing_fields c a (environ w)); simpl.
  - destruct (boto3_client _); simpl;
      rewrite ?wf_with_object; auto using store_credentials_class.
  - rewrite wf_with_object; auto using store_credentials_class.
Qed.

Lemma wf_construct c a w : wf w = true → wf (construct c a w).1 = true.
Proof.
  intros Hwf. rewrite construct_run by done. unfold construct_outcome.
  pose proof (wf_init_outcome c a (instance_ref c w) _ (wf_new c w Hwf)) as H.
  by destruct (init_outcome _ _ _ _) as [w' [e | u]].
Qed.

(** ** The six operations leave objects and slots alone *)

Lemma preserves_ret {A : Type} (x : A) :
  preserves_inner (Σ:=Σ) (mret x : @M Σ A).
Proof. by intros w. Qed.

Lemma preserves_raise {A : Type} (e : exc) :
  preserves_inner (Σ:=Σ) (raise e : @M Σ A).
Proof. by intros w. Qed.

Lemma preserves_bind {A B : Type} (m : @M Σ A) (f : A -> @M Σ B) :
  preserves_inner m → (∀ x, preserves_inner (Σ:=Σ) (f x)) →
  preserves_inner (m ≫= f).
Proof.
  intros Hm Hf w. rewrite bind_run. specialize (Hm w).
  destruct (m w) as [w' [e | x]]; simpl in *; [done |].
  by rewrite Hf.
Qed.

Lemma preserves_try {A : Type} (m : @M Σ A) (h : exc -> @M Σ A) :
  preserves_inner m → (∀ e, preserves_inner (Σ:=Σ) (h e)) →
  preserves_inner (Σ:=Σ) (try_except_ClientError m h).
Proof.
  intros Hm Hh w. unfold try_except_ClientError. specialize (Hm w).
  destruct (m w) as [w' [e | x]]; simpl in *; [| done].
  destruct (isinstance_ClientError e); [| done]. by rewrite Hh.
Qed.

Lemma preserves_outside_call {A : Type} (k : call) (f : Σ -> Σ * (exc + A)) :
  preserves_inner (Σ:=Σ) (outside_call k f).
Proof. intros w. unfold outside_call. by destruct (f (outside w)). Qed.

Lemma preserves_getattr self name :
  preserves_inner (Σ:=Σ) (getattr self name).
Proof.
  intros w. unfold getattr. destruct (heap w !! self) as [o|]; [| done].
  by destruct (obj_dict o !! name).
Qed.

Lemma preserves_deref self : preserves_inner (Σ:=Σ) (deref self).
Proof. by intros w. Qed.

Create HintDb frame discriminated.

#[local] Hint Resolve preserves_ret preserves_raise preserves_outside_call
  preserves_getattr preserves_deref : frame.
#[local] Hint Extern 2 (preserves_inner (_ ≫= _)) =>
  apply preserves_bind; [| intros ?] : frame.
#[local] Hint Extern 2 (preserves_inner (try_except_ClientError _ _)) =>
  apply preserves_try; [| intros ?] : frame.
#[local] Hint Extern 3 (preserves_inner (match ?x with _ => _ end)) =>
  destruct x : frame.

Lemma preserves_self_client self : preserves_inner (Σ:=Σ) (self_client self).
Proof. unfold self_client. auto with frame. Qed.

Lemma preserves_get_storage_url self b k :
  preserves_inner (Σ:=Σ) (_get_storage_url self b k).
Proof. unfold _get_storage_url. auto with frame. Qed.

Lemma preserves_ensure_directory d :
  preserves_inner (Σ:=Σ) (ensure_directory d).
Proof. unfold ensure_directory. auto with frame. Qed.

#[local] Hint Resolve preserves_self_client preserves_get_storage_url
  preserves_ensure_directory : frame.

Lemma preserves_upload_file self l b k :
  preserves_inner (Σ:=Σ) (upload_file self l b k).
Proof. unfold upload_file. auto 10 with frame. Qed.

Lemma preserves_download_file self b k l :
  preserves_inner (Σ:=Σ) (download_file self b k l).
Proof. unfold download_file. auto 10 with frame. Qed.

Lemma preserves_list_files self b p :
  preserves_inner (Σ:=Σ) (list_files self b p).
Proof. unfold list_files. auto 10 with frame. Qed.

Lemma preserves_delete_file self b k :
  preserves_inner (Σ:=Σ) (delete_file self b k).
Proof. unfold delete_file. auto 10 with frame. Qed.

Lemma preserves_file_exists self b k :
  preserves_inner (Σ:=Σ) (file_exists self b k).
Proof. unfold file_exists. auto 10 with frame. Qed.

Lemma preserves_get_file_metadata self b k :
  preserves_inner (Σ:=Σ) (get_file_metadata self b k).
Proof. unfold get_file_metadata. auto 10 with frame. Qed.

Lemma inner_eq w w' :
  inner w' = inner w →
  environ w' = environ w ∧ heap w' = heap w
  ∧ ∀ c, cls_instance c w' = cls_instance c w.
Proof.
  unfold inner. intros [= He Hh H1 H2].
  split; [done |]. split; [done |]. by intros [].
Qed.

(** Every action but a constructor call leaves heap and slots as they are. *)
Lemma exec_objects act w :
  (∀ c, constructs c act = false) →
  heap (exec act w) = heap w
  ∧ ∀ c, cls_instance c (exec act w) = cls_instance c w.
Proof.
  intros Hact.
  destruct act as [c a | self l b k | self b k l | self b p | self b k
                  | self b k | self b k | k v | k]; simpl.
  - specialize (Hact c); simpl in Hact.
    by rewrite bool_decide_eq_true_2 in Hact.
  - by apply inner_eq, preserves_upload_file.
  - by apply inner_eq, preserves_download_file.
  - by apply inner_eq, preserves_list_files.
  - by apply inner_eq, preserves_delete_file.
  - by apply inner_eq, preserves_file_exists.
  - by apply inner_eq, preserves_get_file_metadata.
  - split; [done | by intros []].
  - split; [done | by intros []].
Qed.

Lemma wf_objects w w' :
  heap w' = heap w → (∀ c, cls_instance c w' = cls_instance c w) →
  wf w' = wf w.
Proof. intros Hh Hc. unfold wf, slot_ok. by rewrite !Hc, Hh. Qed.

Lemma wf_exec act w : wf w = true → wf (exec act w) = true.
Proof.
  intros Hwf. destruct act as [c a | | | | | | | |];
    [by apply wf_construct | ..];
    (erewrite wf_objects; [exact Hwf | |]; by apply exec_objects).
Qed.

Lemma wf_run acts w : wf w = true → wf (run acts w) = true.
Proof.
  revert w. induction acts as [| act acts IH]; intros w Hwf; [done |].
  simpl. by apply IH, wf_exec.
Qed.

Lemma wf_boot env (σ : Σ) : wf (boot env σ) = true.
Proof. reflexivity. Qed.

(** ** What a constructor call touches *)

Lemma instance_ref_bound c w l :
  instance_ref c w = l → cls_instance c w = Some l ∨ l = length (heap w).
Proof.
  unfold instance_ref. destruct (cls_instance c w); simpl; intros <-; auto.
Qed.

(** The slots of two classes never share an object. *)
Lemma instance_ref_other c c' w l :
  wf w = true → c' ≠ c → cls_instance c w = Some l → instance_ref c' w ≠ l.
Proof.
  intros Hwf Hne Hl Heq.
  destruct (slot_ok_lookup c w l (wf_slot c w Hwf) Hl) as (o & Ho & Hc).
  destruct (instance_ref_bound _ _ _ Heq) as [Hl' | ->].
  - destruct (slot_ok_lookup c' w l (wf_slot c' w Hwf) Hl') as (o' & Ho' & Hc').
    congruence.
  - apply lookup_lt_Some in Ho. lia.
Qed.

Lemma new_heap_lookup c w l :
  l < length (heap w) →
  heap (StorageInterface__new__ c w).1 !! l = heap w !! l.
Proof.
  intros Hl. rewrite new_run.
  destruct (cls_instance c w); simpl; [done |].
  destruct c; simpl; by rewrite lookup_app_l.
Qed.

Lemma new_slot_other c c' w :
  c' ≠ c →
  cls_instance c (StorageInterface__new__ c' w).1 = cls_instance c w.
Proof.
  intros Hne. rewrite new_run.
  destruct (cls_instance c' w); simpl; [done |]. by destruct c, c'.
Qed.

Lemma init_outcome_heap_lookup c a self w l :
  self ≠ l → heap (init_outcome c a self w).1 !! l = heap w !! l.
Proof.
  intros Hne. unfold init_outcome.
  destruct (missing_fields c a (environ w)); cbn [fst].
  - destruct (boto3_client _); cbn [fst]; by rewrite !with_object_lookup_ne.
  - by rewrite with_object_lookup_ne.
Qed.

Lemma init_outcome_slot c c' a self w :
  cls_instance c (init_outcome c' a self w).1 = cls_instance c w.
Proof.
  unfold init_outcome.
  destruct (missing_fields c' a (environ w)); simpl.
  - destruct (boto3_client _); simpl; by destruct c.
  - by destruct c.
Qed.

Lemma construct_world c a w :
  wf w = true →
  (construct c a w).1 =
    (init_outcome c a (instance_ref c w) (StorageInterface__new__ c w).1).1.
Proof.
  intros Hwf. rewrite construct_run by done. unfold construct_outcome.
  by destruct (init_outcome _ _ _ _) as [w' [e | u]].
Qed.

(** A constructor call changes no object but the one it works on. *)
Lemma construct_heap_lookup c a w l :
  wf w = true → l < length (heap w) → instance_ref c w ≠ l →
  heap (construct c a w).1 !! l = heap w !! l.
Proof.
  intros Hwf Hl Hne. rewrite construct_world by done.
  rewrite init_outcome_heap_lookup by done. by apply new_heap_lookup.
Qed.

Lemma construct_slot_other c c' a w :
  wf w = true → c' ≠ c →
  cls_instance c (construct c' a w).1 = cls_instance c w.
Proof.
  intros Hwf Hne. rewrite construct_world by done.
  rewrite init_outcome_slot. by apply new_slot_other.
Qed.

Lemma construct_slot c a w :
  wf w = true →
  cls_instance c (construct c a w).1 = Some (instance_ref c w).
Proof.
  intros Hwf. rewrite construct_world by done.
  rewrite init_outcome_slot. apply new_slot.
Qed.

Lemma construct_result c a w w' self :
  wf w = true → construct c a w = (w', inr self) → self = instance_ref c w.
Proof.
  intros Hwf. rewrite construct_run by done. unfold construct_outcome.
  destruct (init_outcome _ _ _ _) as [w1 [e | u]]; congruence.
Qed.

Lemma not_construct_objects act w :
  (∀ c a, act ≠ Construct c a) →
  heap (exec act w) = heap w
  ∧ ∀ c, cls_instance c (exec act w) = cls_instance c w.
Proof.
  intros Hact. apply exec_objects. intros c.
  destruct act; try done. by destruct (Hact c0 a).
Qed.

Lemma action_cases act :
  (∃ c a, act = Construct c a) ∨ (∀ c a, act ≠ Construct c a).
Proof. destruct act; eauto; right; intros; discriminate. Qed.

(** Once a class has its instance, the slot keeps pointing to it. *)
Lemma exec_slot c self act w :
  wf w = true → cls_instance c w = Some self →
  cls_instance c (exec act w) = Some self.
Proof.
  intros Hwf Hs.
  destruct (action_cases act) as [(c' & a & ->) | Hact];
    [| by rewrite (proj2 (not_construct_objects _ w Hact))].
  simpl. destruct (decide (c' = c)) as [-> | Hne].
  - rewrite construct_slot by done. unfold instance_ref. by rewrite Hs.
  - by rewrite construct_slot_other.
Qed.

Lemma run_slot c self acts w :
  wf w = true → cls_instance c w = Some self →
  wf (run acts w) = true ∧ cls_instance c (run acts w) = Some self.
Proof.
  revert w. induction acts as [| act acts IH]; intros w Hwf Hs; [done |].
  simpl. apply IH; [by apply wf_exec | by apply exec_slot].
Qed.

Lemma exec_heap_lookup c self act w :
  wf w = true → cls_instance c w = Some self → constructs c act = false →
  heap (exec act w) !! self = heap w !! self.
Proof.
  intros Hwf Hs Hact.
  destruct (action_cases act) as [(c' & a & ->) | Hact'];
    [| by rewrite (proj1 (not_construct_objects _ w Hact'))].
  simpl in *. apply bool_decide_eq_false in Hact.
  destruct (slot_ok_lookup c w self (wf_slot c w Hwf) Hs) as (o & Ho & _).
  apply construct_heap_lookup; [done | by eapply lookup_lt_Some |].
  by apply instance_ref_other with c.
Qed.

Lemma run_heap_lookup c self acts w :
  wf w = true → cls_instance c w = Some self →
  forallb (λ x, negb (constructs c x)) acts = true →
  heap (run acts w) !! self = heap w !! self.
Proof.
  revert w. induction acts as [| act acts IH]; intros w Hwf Hs Hacts; [done |].
  simpl in *. apply andb_true_iff in Hacts as [Hact Hacts].
  apply negb_true_iff in Hact.
  rewrite IH; [by eapply exec_heap_lookup | by apply wf_exec
              | by apply exec_slot | done].
Qed.

(** The credentials [__init__] leaves in the object. *)
Lemma store_credentials_lookup c a env o f :
  f ∈ required_fields c →
  obj_dict (store_credentials c a env o) !! field_attribute f
    = Some (attr_of (resolved c a env f)).
Proof.
  intros Hf. destruct c; simpl in Hf;
    repeat (apply elem_of_cons in Hf as [-> | Hf]);
    try (by apply elem_of_nil in Hf);
    unfold store_credentials; simpl; by simplify_map_eq.
Qed.

Lemma credential_init_outcome c a self w o f :
  heap w !! self = Some o → f ∈ required_fields c →
  credential (init_outcome c a self w).1 self f
    = Some (attr_of (resolved c a (environ w) f)).
Proof.
  intros Ho Hf.
  pose proof (with_object_lookup self (store_credentials c a (environ w)) w o Ho)
    as H1.
  pose proof (store_credentials_lookup c a (environ w) o f Hf) as H2.
  unfold credential, attribute, init_outcome.
  destruct (missing_fields c a (environ w)); cbn [fst].
  - destruct (boto3_client _) as [e | client]; cbn [fst].
    + by rewrite H1.
    + rewrite (with_object_lookup _ _ _ _ H1). simpl.
      rewrite lookup_insert_ne; [done |].
      destruct c; simpl in Hf;
        repeat (apply elem_of_cons in Hf as [-> | Hf]);
        try (by apply elem_of_nil in Hf); done.
  - by rewrite H1.
Qed.

(** The credentials a constructor call leaves in the object it worked on. *)
Lemma credential_construct c a w f :
  wf w = true → f ∈ required_fields c →
  credential (construct c a w).1 (instance_ref c w) f
    = Some (attr_of (resolved c a (environ w) f)).
Proof.
  intros Hwf Hf. destruct (new_lookup c w Hwf) as (o & Ho & _).
  rewrite construct_world by done.
  rewrite (credential_init_outcome _ _ _ _ _ _ Ho Hf). by rewrite new_environ.
Qed.

(** ** Credentials: resolution and the report of missing fields *)

Lemma elem_of_missing_fields c a env f :
  f ∈ missing_fields c a env
  ↔ f ∈ required_fields c ∧ is_missing (resolved c a env f) = true.
Proof.
  unfold missing_fields. rewrite !list_elem_of_In, filter_In. done.
Qed.

(** Two selections of required fields with the same report are the same
    selection. *)
Lemma report_determines_fields c (P Q : string → bool) :
  configuration_error c (List.filter P (required_fields c))
    = configuration_error c (List.filter Q (required_fields c)) →
  List.filter P (required_fields c) = List.filter Q (required_fields c).
Proof.
  destruct c; simpl;
    destruct (P "access_key"), (P "secret_access_key"),
             (Q "access_key"), (Q "secret_access_key");
    try destruct (P "account_id"); try destruct (Q "account_id");
    intros H; try reflexivity; vm_compute in H; discriminate H.
Qed.

Lemma construct_result_run c a w :
  wf w = true →
  (construct c a w).2 =
    match missing_fields c a (environ w) with
    | (_ :: _) as missing => inl (configuration_error c missing)
    | [] =>
        match boto3_client (resolved_config c a (environ w)) with
        | inl e => inl e
        | inr _ => inr (instance_ref c w)
        end
    end.
Proof.
  intros Hwf. rewrite construct_run by done.
  unfold construct_outcome, init_outcome. rewrite new_environ.
  destruct (missing_fields c a (environ w)); [| done].
  by destruct (boto3_client _).
Qed.

(** C1.  Whatever the explicit parameters and the environment are, the
    fields a constructor call reports are the required fields of the backend
    whose resolved value is absent or empty: when there is at least one, the
    call raises the configuration error made of all of them at once, and
    that report names no other selection of fields; when there is none, the
    call raises no configuration error: it goes on to [boto3.client] and
    returns the instance unless that call fails.  The required fields are
    [access_key] and [secret_access_key] for S3, and [account_id] as well
    for R2. *)
Theorem missing_fields_reported c a w :
  wf w = true →
  let missing := missing_fields c a (environ w) in
  required_fields S3Storage = ["access_key"; "secret_access_key"]
  ∧ required_fields R2Storage
    = ["access_key"; "secret_access_key"; "account_id"]
  ∧ (∀ f, f ∈ missing
          ↔ f ∈ required_fields c
            ∧ is_missing (resolved c a (environ w) f) = true)
  ∧ NoDup missing
  ∧ (missing ≠ [] →
     (construct c a w).2 = inl (configuration_error c missing))
  ∧ (∀ P : string → bool,
       configuration_error c (List.filter P (required_fields c))
         = configuration_error c missing →
       List.filter P (required_fields c) = missing)
  ∧ (missing = [] →
       (construct c a w).2 =
         match boto3_client (resolved_config c a (environ w)) with
         | inl e => inl e
         | inr _ => inr (instance_ref c w)
         end).
Proof.
  intros Hwf missing. split_and!; try done.
  - intros f. apply elem_of_missing_fields.
  - subst missing. unfold missing_fields.
    apply NoDup_ListNoDup, List.NoDup_filter, NoDup_ListNoDup.
    destruct c; by apply (bool_decide_unpack _).
  - intros Hne. rewrite construct_result_run by done. fold missing.
    by destruct missing.
  - intros P. apply report_determines_fields.
  - intros He. rewrite construct_result_run by done. fold missing.
    by rewrite He.
Qed.

Lemma py_or_explicit v y : v ≠ "" → py_or (Some v) y = Some v.
Proof.
  intros Hv. unfold py_or; simpl.
  by rewrite (proj2 (String.eqb_neq v "") Hv).
Qed.

Lemma py_or_blank x y : x = None ∨ x = Some "" → py_or x y = y.
Proof. by intros [-> | ->]. Qed.

(** C9 (amended).  For every required credential field of either backend,
    the value the constructed object holds is the explicit constructor
    parameter when one is supplied and is not the empty string; otherwise
    (the parameter is absent or empty) it is the value of the environment
    variable of the field when the variable is set
    ([S3_ACCESS_KEY_ID], [S3_SECRET_ACCESS_KEY] for S3; [R2_ACCESS_KEY_ID],
    [R2_SECRET_ACCESS_KEY], [R2_ACCOUNT_ID] for R2); otherwise the field
    holds [None] and is reported missing. *)
Theorem credential_resolution c a w f :
  wf w = true → f ∈ required_fields c →
  let held := credential (construct c a w).1 (instance_ref c w) f in
  let variable := environ w !! fallback_variable c f in
  (fallback_variable S3Storage <$> required_fields S3Storage
     = ["S3_ACCESS_KEY_ID"; "S3_SECRET_ACCESS_KEY"]
   ∧ fallback_variable R2Storage <$> required_fields R2Storage
     = ["R2_ACCESS_KEY_ID"; "R2_SECRET_ACCESS_KEY"; "R2_ACCOUNT_ID"])
  ∧ (∀ v, explicit_value a f = Some v → v ≠ "" → held = Some (AStr v))
  ∧ (∀ v, explicit_value a f = None ∨ explicit_value a f = Some "" →
          variable = Some v → held = Some (AStr v))
  ∧ (explicit_value a f = None ∨ explicit_value a f = Some "" →
     variable = None →
     held = Some ANone ∧ f ∈ missing_fields c a (environ w)).
Proof.
  intros Hwf Hf held variable.
  assert (Hheld : held = Some (attr_of (resolved c a (environ w) f)))
    by by apply credential_construct.
  split_and!; try done.
  - intros v He Hv. rewrite Hheld. unfold resolved.
    by rewrite He, py_or_explicit.
  - intros v He Hv. rewrite Hheld. unfold resolved.
    rewrite py_or_blank by done. fold variable. by rewrite Hv.
  - intros He Hv.
    assert (Hr : resolved c a (environ w) f = None).
    { unfold resolved. rewrite py_or_blank by done. by fold variable. }
    split; [by rewrite Hheld, Hr |].
    apply elem_of_missing_fields. by rewrite Hr.
Qed.

(** ** The empty string as an explicit parameter *)

Lemma py_or_blank_as_absent x y : py_or (blank_as_absent x) y = py_or x y.
Proof.
  destruct x as [s |]; [| done]. unfold py_or; simpl.
  destruct (String.eqb s "") eqn:E; simpl; [done |]. by rewrite E.
Qed.

Lemma resolved_blanks_removed c a env f :
  resolved c (blanks_removed a) env f = resolved c a env f.
Proof.
  unfold resolved, explicit_value; simpl.
  repeat (case_match; [by rewrite py_or_blank_as_absent |]). done.
Qed.

Lemma construct_outcome_blanks_removed c a w :
  construct_outcome c (blanks_removed a) w = construct_outcome c a w.
Proof.
  unfold construct_outcome, init_outcome, missing_fields, resolved_config,
    store_credentials.
  destruct c; simpl; by rewrite !resolved_blanks_removed.
Qed.

Lemma truthy_Some v : truthy v = true → ∃ s, v = Some s ∧ s ≠ "".
Proof.
  destruct v as [s |]; [| done]. simpl. intros H%negb_true_iff.
  exists s. split; [done |]. by apply String.eqb_neq.
Qed.

(** C10 (amended).  An explicit credential parameter that is the empty
    string is treated exactly like an absent one: the constructor call does
    the same with both; the environment variable of the field is consulted;
    when that is absent or empty as well the field is among those reported
    missing and the call raises that report.  So a client holds a non-empty
    string in each required field when a constructor call returns it, and
    goes on holding it as long as no constructor of the same class is
    called again. *)
Theorem empty_string_is_absent c a w :
  wf w = true →
  construct c a w = construct c (blanks_removed a) w
  ∧ (∀ f, f ∈ required_fields c → explicit_value a f = Some "" →
       resolved c a (environ w) f = environ w !! fallback_variable c f
       ∧ credential (construct c a w).1 (instance_ref c w) f
         = Some (attr_of (environ w !! fallback_variable c f)))
  ∧ (∀ f, f ∈ required_fields c → explicit_value a f = Some "" →
       is_missing (environ w !! fallback_variable c f) = true →
       f ∈ missing_fields c a (environ w)
       ∧ (construct c a w).2
         = inl (configuration_error c (missing_fields c a (environ w))))
  ∧ (∀ w' self, construct c a w = (w', inr self) →
       ∀ f, f ∈ required_fields c →
         ∃ s, credential w' self f = Some (AStr s) ∧ s ≠ "")
  ∧ (∀ w' self acts, construct c a w = (w', inr self) →
       forallb (λ x, negb (constructs c x)) acts = true →
       ∀ f, f ∈ required_fields c →
         ∃ s, credential (run acts w') self f = Some (AStr s) ∧ s ≠ "").
Proof.
  intros Hwf.
  assert (Hheld : ∀ w' self, construct c a w = (w', inr self) →
            ∀ f, f ∈ required_fields c →
              ∃ s, credential w' self f = Some (AStr s) ∧ s ≠ "");
    [| split_and!; [| | | exact Hheld |] ]; cycle 1.
  - rewrite !construct_run by done.
    by rewrite construct_outcome_blanks_removed.
  - intros f Hf He.
    assert (Hr : resolved c a (environ w) f
                 = environ w !! fallback_variable c f)
      by (unfold resolved; rewrite py_or_blank; auto).
    split; [done |]. rewrite credential_construct by done. by rewrite Hr.
  - intros f Hf He Hm.
    assert (Hin : f ∈ missing_fields c a (environ w)).
    { apply elem_of_missing_fields. split; [done |].
      unfold resolved. rewrite py_or_blank; auto. }
    split; [done |]. rewrite construct_result_run by done.
    destruct (missing_fields c a (environ w)); [| done].
    by apply elem_of_nil in Hin.
  - intros w' self acts Hc Hacts f Hf.
    destruct (Hheld w' self Hc f Hf) as (s & Hs & Hne). exists s.
    split; [| done]. rewrite <- Hs.
    pose proof (construct_result _ _ _ _ _ Hwf Hc) as ->.
    assert (Hw' : w' = (construct c a w).1) by by rewrite Hc.
    unfold credential, attribute.
    rewrite (run_heap_lookup c (instance_ref c w) acts w'); [done | | | done].
    + rewrite Hw'. by apply wf_construct.
    + rewrite Hw'. by apply construct_slot.
  - intros w' self Hc f Hf.
    pose proof (construct_result_run c a w Hwf) as Hr.
    pose proof (credential_construct c a w f Hwf Hf) as Hcred.
    rewrite Hc in Hr, Hcred. simpl in Hr, Hcred.
    destruct (missing_fields c a (environ w)) as [| f0 fs] eqn:Em; [| done].
    destruct (boto3_client _); [done |]. injection Hr as ->.
    assert (Ht : truthy (resolved c a (environ w) f) = true).
    { destruct (truthy (resolved c a (environ w) f)) eqn:Et; [done |].
      assert (f ∈ missing_fields c a (environ w)) as Hin.
      { apply elem_of_missing_fields. split; [done |].
        by rewrite is_missing_truthy, Et. }
      rewrite Em in Hin. by apply elem_of_nil in Hin. }
    apply truthy_Some in Ht as (s & Hs & Hne).
    exists s. by rewrite Hcred, Hs.
Qed.

(** ** One instance per class *)

(** C4 (amended).  A client returned by a constructor call is bound to its
    backend for good: whatever is run later, the object keeps its class.
    No operation, no change of the environment and no construction of a
    client of the other class changes anything the object holds.  A later
    constructor call of the same class does not make a new client: it works
    on this very object and stores in it the credentials resolved from its
    own arguments. *)
Theorem instance_bound_for_life c a w w1 self :
  wf w = true → construct c a w = (w1, inr self) →
  (∀ acts, obj_class <$> heap (run acts w1) !! self = Some c)
  ∧ (∀ acts, forallb (λ x, negb (constructs c x)) acts = true →
       heap (run acts w1) !! self = heap w1 !! self)
  ∧ (∀ acts a' w2 self',
       construct c a' (run acts w1) = (w2, inr self') → self' = self)
  ∧ (∀ acts a' f, f ∈ required_fields c →
       credential (construct c a' (run acts w1)).1 self f
         = Some (attr_of (resolved c a' (environ (run acts w1)) f))).
Proof.
  intros Hwf Hc.
  pose proof (construct_result _ _ _ _ _ Hwf Hc) as ->.
  assert (Hw1 : w1 = (construct c a w).1) by by rewrite Hc.
  assert (Hwf1 : wf w1 = true) by (rewrite Hw1; by apply wf_construct).
  assert (Hs1 : cls_instance c w1 = Some (instance_ref c w))
    by (rewrite Hw1; by apply construct_slot).
  split_and!.
  - intros acts. destruct (run_slot c _ acts w1 Hwf1 Hs1) as [Hwf2 Hs2].
    destruct (slot_ok_lookup c _ _ (wf_slot c _ Hwf2) Hs2) as (o & -> & Ho).
    simpl. by rewrite Ho.
  - intros acts Hacts. by apply run_heap_lookup with c.
  - intros acts a' w2 self' Hc2.
    destruct (run_slot c _ acts w1 Hwf1 Hs1) as [Hwf2 Hs2].
    rewrite (construct_result _ _ _ _ _ Hwf2 Hc2).
    unfold instance_ref at 1. by rewrite Hs2.
  - intros acts a' f Hf.
    destruct (run_slot c _ acts w1 Hwf1 Hs1) as [Hwf2 Hs2].
    assert (Hr : instance_ref c (run acts w1) = instance_ref c w)
      by (unfold instance_ref at 1; by rewrite Hs2).
    rewrite <- Hr. by apply credential_construct.
Qed.

(** ** [os.path.basename] *)

Lemma rfind_from_shift ch s i last :
  posixpath.rfind_from ch s i last =
    if posixpath.contains ch s
    then (i + posixpath.rfind_from ch s 0 (-1))%Z
    else last.
Proof.
  revert i last. induction s as [| x s IH]; intros i last; simpl; [done |].
  rewrite (IH (i + 1)%Z), (IH (0 + 1)%Z).
  destruct (posixpath.contains ch s), (Ascii.eqb x ch); simpl; lia.
Qed.

Lemma rfind_cons ch x s :
  posixpath.rfind ch (String x s) =
    if posixpath.contains ch s then (1 + posixpath.rfind ch s)%Z
    else if Ascii.eqb x ch then 0%Z else (-1)%Z.
Proof.
  unfold posixpath.rfind; simpl. rewrite rfind_from_shift.
  by destruct (posixpath.contains ch s).
Qed.

Lemma rfind_lower ch s : (-1 ≤ posixpath.rfind ch s)%Z.
Proof.
  induction s as [| x s IH]; [done |]. rewrite rfind_cons.
  destruct (posixpath.contains ch s), (Ascii.eqb x ch); lia.
Qed.

(** The basename by recursion on the path. *)
Lemma basename_cons x s :
  posixpath.basename (String x s) =
    if posixpath.contains posixpath.sep s then posixpath.basename s
    else if Ascii.eqb x posixpath.sep then s else String x s.
Proof.
  unfold posixpath.basename, posixpath.slice_from. rewrite rfind_cons.
  pose proof (rfind_lower posixpath.sep s) as Hl.
  destruct (posixpath.contains posixpath.sep s).
  - replace (Z.to_nat (1 + posixpath.rfind posixpath.sep s + 1))
      with (S (Z.to_nat (posixpath.rfind posixpath.sep s + 1))) by lia.
    done.
  - by destruct (Ascii.eqb x posixpath.sep).
Qed.

Lemma app_String x s t : String x s +:+ t = String x (s +:+ t).
Proof. reflexivity. Qed.

Lemma app_empty_l t : "" +:+ t = t.
Proof. reflexivity. Qed.

(** The basename is the final segment of the path. *)
Lemma basename_final_segment p : final_segment (posixpath.basename p) p.
Proof.
  unfold final_segment, no_sep.
  induction p as [| x s (Hn & head & Hs & Hh)].
  { split; [done |]. exists "". by split; [| left]. }
  rewrite basename_cons.
  destruct (posixpath.contains posixpath.sep s) eqn:Ec.
  - split; [done |]. destruct Hh as [-> | (h & ->)].
    + rewrite app_empty_l in Hs. rewrite <- Hs in Hn. congruence.
    + exists (String x h +:+ "/"). split.
      * rewrite !app_String. by rewrite <- Hs.
      * right. by exists (String x h).
  - destruct (Ascii.eqb x posixpath.sep) eqn:Ex.
    + split; [done |]. apply Ascii.eqb_eq in Ex as ->.
      exists "/". split; [done |]. right. by exists "".
    + split; [simpl; by rewrite Ex, Ec |]. exists "". by split; [| left].
Qed.

(** ** Running the six operations *)

Lemma self_client_run self w cl :
  attribute w self "client" = Some (AClient cl) →
  self_client self w = (w, inr cl).
Proof.
  unfold attribute, self_client, getattr. rewrite bind_run.
  destruct (heap w !! self) as [o |]; simpl; [| done].
  by intros ->.
Qed.

Lemma get_storage_url_run self b k w c :
  obj_class <$> heap w !! self = Some c →
  _get_storage_url self b k w = (w, inr (cls_get_storage_url c b k)).
Proof.
  unfold _get_storage_url. rewrite bind_run. unfold deref.
  destruct (heap w !! self) as [o |]; simpl; [| done]. by intros [= ->].
Qed.

Lemma upload_file_run self l b k w cl c :
  attribute w self "client" = Some (AClient cl) →
  obj_class <$> heap w !! self = Some c →
  upload_file self l b k w =
    let key := default (posixpath.basename l) k in
    (set_outside (client_upload_file cl l b key (outside w)).1
       (CallUpload l b key) w,
     match (client_upload_file cl l b key (outside w)).2 with
     | inl e => inl (if isinstance_ClientError e then wrapped Upload e else e)
     | inr _ => inr (key, cls_get_storage_url c b key)
     end).
Proof.
  intros Hcl Hc. unfold upload_file, try_except_ClientError.
  rewrite bind_run, (self_client_run _ _ _ Hcl), bind_run.
  unfold outside_call.
  replace (match k with Some k0 => k0 | None => posixpath.basename l end)
    with (default (posixpath.basename l) k) by by destruct k.
  destruct (client_upload_file cl l b _ (outside w)) as [σ' [e | u]]; simpl.
  - by destruct (isinstance_ClientError e).
  - rewrite bind_run, (get_storage_url_run _ _ _ _ c) by done. done.
Qed.

Lemma download_file_run self b k l w w1 cl :
  attribute w self "client" = Some (AClient cl) →
  let dest := default (posixpath.basename k) l in
  ensure_directory (posixpath.dirname dest) w = (w1, inr ()) →
  download_file self b k l w =
    (set_outside (client_download_file cl b k dest (outside w1)).1
       (CallDownload b k dest) w1,
     match (client_download_file cl b k dest (outside w1)).2 with
     | inl e => inl (if isinstance_ClientError e then wrapped Download e else e)
     | inr _ => inr dest
     end).
Proof.
  intros Hcl dest Hd. unfold download_file.
  replace (match l with Some p => p | None => posixpath.basename k end)
    with dest by by destruct l.
  rewrite bind_run, Hd. unfold try_except_ClientError.
  assert (Hcl1 : attribute w1 self "client" = Some (AClient cl)).
  { pose proof (preserves_ensure_directory (posixpath.dirname dest) w) as Hp.
    rewrite Hd in Hp. apply inner_eq in Hp as (_ & Hh & _).
    unfold attribute in *. simpl in Hh. by rewrite Hh. }
  rewrite bind_run, (self_client_run _ _ _ Hcl1), bind_run.
  unfold outside_call.
  destruct (client_download_file cl b k dest (outside w1)) as [σ' [e | u]];
    simpl; [| done].
  by destruct (isinstance_ClientError e).
Qed.

Lemma download_file_makedirs_raises self b k l w w1 e :
  let dest := default (posixpath.basename k) l in
  ensure_directory (posixpath.dirname dest) w = (w1, inl e) →
  download_file self b k l w = (w1, inl e).
Proof.
  intros dest Hd. unfold download_file.
  replace (match l with Some p => p | None => posixpath.basename k end)
    with dest by by destruct l.
  by rewrite bind_run, Hd.
Qed.

(** The [Prefix] argument [list_files] passes on: the prefix when it is a
    non-empty string, none otherwise. *)
Lemma list_files_run self b p w cl :
  attribute w self "client" = Some (AClient cl) →
  list_files self b p w =
    let prefix := if truthy p then p else None in
    (set_outside (client_list_objects_v2 cl b prefix (outside w)).1
       (CallListObjects b prefix) w,
     match (client_list_objects_v2 cl b prefix (outside w)).2 with
     | inl e => inl (if isinstance_ClientError e then wrapped Listing e else e)
     | inr response => inr (file_entry <$> default [] (Contents response))
     end).
Proof.
  intros Hcl. unfold list_files, try_except_ClientError.
  rewrite bind_run, (self_client_run _ _ _ Hcl), bind_run.
  unfold outside_call.
  destruct (truthy p); simpl;
    destruct (client_list_objects_v2 cl b _ (outside w)) as [σ' [e | r]];
    simpl; try done; by destruct (isinstance_ClientError e).
Qed.

Lemma delete_file_run self b k w cl :
  attribute w self "client" = Some (AClient cl) →
  delete_file self b k w =
    (set_outside (client_delete_object cl b k (outside w)).1
       (CallDeleteObject b k) w,
     match (client_delete_object cl b k (outside w)).2 with
     | inl e => inl (if isinstance_ClientError e then wrapped Deletion e else e)
     | inr _ => inr true
     end).
Proof.
  intros Hcl. unfold delete_file, try_except_ClientError.
  rewrite bind_run, (self_client_run _ _ _ Hcl), bind_run.
  unfold outside_call.
  destruct (client_delete_object cl b k (outside w)) as [σ' [e | u]];
    simpl; [| done].
  by destruct (isinstance_ClientError e).
Qed.

Lemma file_exists_run self b k w cl :
  attribute w self "client" = Some (AClient cl) →
  file_exists self b k w =
    (set_outside (client_head_object cl b k (outside w)).1
       (CallHeadObject b k) w,
     match (client_head_object cl b k (outside w)).2 with
     | inl e => if isinstance_ClientError e then inr false else inl e
     | inr _ => inr true
     end).
Proof.
  intros Hcl. unfold file_exists, try_except_ClientError.
  rewrite bind_run, (self_client_run _ _ _ Hcl), bind_run.
  unfold outside_call.
  destruct (client_head_object cl b k (outside w)) as [σ' [e | u]];
    simpl; [| done].
  by destruct (isinstance_ClientError e).
Qed.

Lemma get_file_metadata_run self b k w cl :
  attribute w self "client" = Some (AClient cl) →
  get_file_metadata self b k w =
    (set_outside (client_head_object cl b k (outside w)).1
       (CallHeadObject b k) w,
     match (client_head_object cl b k (outside w)).2 with
     | inl e =>
         inl (if isinstance_ClientError e then wrapped MetadataLookup e else e)
     | inr response => inr (file_metadata response)
     end).
Proof.
  intros Hcl. unfold get_file_metadata, try_except_ClientError.
  rewrite bind_run, (self_client_run _ _ _ Hcl), bind_run.
  unfold outside_call.
  destruct (client_head_object cl b k (outside w)) as [σ' [e | u]];
    simpl; [| done].
  by destruct (isinstance_ClientError e).
Qed.

(** ** Failures of the boto3 calls *)

(** The family and the message can be read back from a wrapped failure. *)
Lemma wrapped_inj f g e e' :
  wrapped f e = wrapped g e' → f = g ∧ exc_str e = exc_str e'.
Proof.
  unfold wrapped. intros [= H].
  destruct f, g; cbv [failure_prefix String.app String.append] in H;
    try discriminate H; split; try reflexivity; congruence.
Qed.

(** C2 (amended).  For each of [upload_file], [download_file],
    [list_files], [delete_file] and [get_file_metadata], a failure of the
    boto3 call that is a [ClientError] is caught and raised again as an
    [Exception] whose message is the text of the operation family
    (["Upload failed: "], ["Download failed: "], ["Listing failed: "],
    ["Deletion failed: "], ["Failed to get metadata: "]) followed by the
    message of the failure, so that family and message can be read back
    from it; a failure of any other class is not caught and leaves the
    operation as it is. *)
Theorem client_errors_wrapped self w cl :
  attribute w self "client" = Some (AClient cl) →
  (∀ l b k e,
     (client_upload_file cl l b (default (posixpath.basename l) k)
        (outside w)).2 = inl e →
     (upload_file self l b k w).2
       = inl (if isinstance_ClientError e then wrapped Upload e else e))
  ∧ (∀ b k l w1 e,
       ensure_directory
         (posixpath.dirname (default (posixpath.basename k) l)) w
         = (w1, inr ()) →
       (client_download_file cl b k (default (posixpath.basename k) l)
          (outside w1)).2 = inl e →
       (download_file self b k l w).2
         = inl (if isinstance_ClientError e then wrapped Download e else e))
  ∧ (∀ b p e,
       (client_list_objects_v2 cl b (if truthy p then p else None)
          (outside w)).2 = inl e →
       (list_files self b p w).2
         = inl (if isinstance_ClientError e then wrapped Listing e else e))
  ∧ (∀ b k e,
       (client_delete_object cl b k (outside w)).2 = inl e →
       (delete_file self b k w).2
         = inl (if isinstance_ClientError e then wrapped Deletion e else e))
  ∧ (∀ b k e,
       (client_head_object cl b k (outside w)).2 = inl e →
       (get_file_metadata self b k w).2
         = inl (if isinstance_ClientError e
                then wrapped MetadataLookup e else e))
  ∧ (∀ f g e e',
       wrapped f e = wrapped g e' → f = g ∧ exc_str e = exc_str e')
  ∧ (∀ f e, wrapped f e
            = Exc Exception (failure_prefix f +:+ exc_str e)).
Proof.
  intros Hcl.
  assert (∃ c, obj_class <$> heap w !! self = Some c) as [c Hc].
  { unfold attribute in Hcl. destruct (heap w !! self) as [o |]; [| done].
    by exists (obj_class o). }
  split_and!.
  - intros l b k e He. rewrite (upload_file_run _ _ _ _ _ cl c) by done.
    simpl. by rewrite He.
  - intros b k l w1 e Hd He.
    rewrite (download_file_run _ _ _ _ _ w1 cl) by done. simpl.
    by rewrite He.
  - intros b p e He. rewrite (list_files_run _ _ _ _ cl) by done. simpl.
    by rewrite He.
  - intros b k e He. rewrite (delete_file_run _ _ _ _ cl) by done. simpl.
    by rewrite He.
  - intros b k e He. rewrite (get_file_metadata_run _ _ _ _ cl) by done.
    simpl. by rewrite He.
  - apply wrapped_inj.
  - done.
Qed.

(** C3 (amended).  [file_exists] makes one head-object call.  It returns
    true when the call succeeds and false when the call fails with a
    [ClientError], "not found" included; a failure of any other class is
    not caught and is raised to the caller. *)
Theorem file_exists_outcome self b k w cl :
  attribute w self "client" = Some (AClient cl) →
  let head := (client_head_object cl b k (outside w)).2 in
  history (file_exists self b k w).1 = history w ++ [CallHeadObject b k]
  ∧ (∀ response, head = inr response →
       (file_exists self b k w).2 = inr true)
  ∧ (∀ e, head = inl e → isinstance_ClientError e = true →
          (file_exists self b k w).2 = inr false)
  ∧ (∀ e, head = inl e → isinstance_ClientError e = false →
          (file_exists self b k w).2 = inl e).
Proof.
  intros Hcl head. rewrite (file_exists_run _ _ _ _ cl) by done.
  fold head. simpl. split_and!; try done.
  - by intros response ->.
  - by intros e -> ->.
  - by intros e -> ->.
Qed.

(** ** The key and the URL of an upload *)

(** What [upload_file] returns, when it returns. *)
Lemma upload_file_returns self l b k w w' key url :
  upload_file self l b k w = (w', inr (key, url)) →
  key = default (posixpath.basename l) k
  ∧ ∃ c, obj_class <$> heap w !! self = Some c
         ∧ url = cls_get_storage_url c b key.
Proof.
  unfold upload_file, try_except_ClientError.
  replace (match k with Some k0 => k0 | None => posixpath.basename l end)
    with (default (posixpath.basename l) k) by by destruct k.
  rewrite bind_run. unfold self_client at 1. rewrite bind_run.
  unfold getattr at 1.
  destruct (heap w !! self) as [o |] eqn:Eo; simpl; [| done].
  destruct (obj_dict o !! "client") as [[| s | cl] |]; simpl; try done.
  rewrite bind_run. unfold outside_call.
  destruct (client_upload_file cl l b _ (outside w)) as [σ' [e | u]]; simpl.
  { by destruct (isinstance_ClientError e). }
  rewrite bind_run, (get_storage_url_run _ _ _ _ (obj_class o))
    by (simpl; by rewrite Eo).
  simpl. intros [= <- <- <-]. split; [done |]. by exists (obj_class o).
Qed.

(** C5.  When [upload_file] is called without a key, the key it returns is
    the basename of the local path, that is its final segment; when it is
    called with a key, it returns that key unchanged.  It does return
    whenever the boto3 upload succeeds. *)
Theorem upload_key_resolution self l b k w cl c :
  attribute w self "client" = Some (AClient cl) →
  obj_class <$> heap w !! self = Some c →
  let resolved_key :=
    match k with
    | None => posixpath.basename l
    | Some explicit => explicit
    end in
  (k = None → final_segment resolved_key l)
  ∧ (∀ u, (client_upload_file cl l b resolved_key (outside w)).2 = inr u →
          ∃ url, (upload_file self l b k w).2 = inr (resolved_key, url))
  ∧ (∀ w' key url, upload_file self l b k w = (w', inr (key, url)) →
                   key = resolved_key).
Proof.
  intros Hcl Hc resolved_key.
  assert (Hk : resolved_key = default (posixpath.basename l) k)
    by by destruct k.
  split_and!.
  - intros ->. apply basename_final_segment.
  - intros u Hu. rewrite (upload_file_run _ _ _ _ _ cl c) by done.
    simpl. rewrite <- Hk, Hu. eauto.
  - intros w' key url Hr. apply upload_file_returns in Hr as [-> _].
    by rewrite Hk.
Qed.

(** C6.  The storage URL of the S3 backend is ["s3://"], the bucket, ["/"]
    and the key; that of the R2 backend is the same with ["r2://"]; no
    bucket or key is refused.  The URL [upload_file] returns is that string
    for the bucket, the key it resolved and the backend of the client. *)
Theorem storage_url_format self l b k w c :
  obj_class <$> heap w !! self = Some c →
  (∀ bucket key,
     S3Storage_get_storage_url bucket key = "s3://" +:+ bucket +:+ "/" +:+ key
     ∧ R2Storage_get_storage_url bucket key
       = "r2://" +:+ bucket +:+ "/" +:+ key
     ∧ ∀ c', cls_get_storage_url c' bucket key
             = formatUrl (scheme c') bucket key)
  ∧ formatUrl "s3" "mybucket" "a/b.txt" = "s3://mybucket/a/b.txt"
  ∧ formatUrl "r2" "mybucket" "a/b.txt" = "r2://mybucket/a/b.txt"
  ∧ (∀ w' key url, upload_file self l b k w = (w', inr (key, url)) →
       key = default (posixpath.basename l) k
       ∧ url = formatUrl (scheme c) b key)
  ∧ (∀ cl u,
       attribute w self "client" = Some (AClient cl) →
       (client_upload_file cl l b (default (posixpath.basename l) k)
          (outside w)).2 = inr u →
       (upload_file self l b k w).2
         = inr (default (posixpath.basename l) k,
                formatUrl (scheme c) b (default (posixpath.basename l) k))).
Proof.
  intros Hc.
  assert (Hurl : ∀ c' bucket key,
            cls_get_storage_url c' bucket key = formatUrl (scheme c') bucket key)
    by by intros [].
  split_and!; try done.
  - intros w' key url Hr.
    apply upload_file_returns in Hr as (-> & c' & Hc' & ->).
    split; [done |]. rewrite Hc in Hc'. injection Hc' as <-. apply Hurl.
  - intros cl u Hcl Hu. rewrite (upload_file_run _ _ _ _ _ cl c) by done.
    simpl. by rewrite Hu, Hurl.
Qed.

(** ** The destination of a download *)

Lemma ensure_directory_run d w :
  ensure_directory d w =
    if String.eqb d "" then (w, inr ())
    else (set_outside (os_makedirs d (outside w)).1 (CallMakedirs d) w,
          (os_makedirs d (outside w)).2).
Proof.
  unfold ensure_directory, outside_call.
  destruct (String.eqb d ""); simpl; [done |].
  by destruct (os_makedirs d (outside w)).
Qed.

Lemma download_file_cases self b k l w cl :
  attribute w self "client" = Some (AClient cl) →
  download_file self b k l w =
    let dest := default (posixpath.basename k) l in
    let directory := posixpath.dirname dest in
    let reached (σ : Σ) : exc + string :=
      match (client_download_file cl b k dest σ).2 with
      | inl e =>
          inl (if isinstance_ClientError e then wrapped Download e else e)
      | inr _ => inr dest
      end in
    if String.eqb directory "" then
      (set_outside (client_download_file cl b k dest (outside w)).1
         (CallDownload b k dest) w,
       reached (outside w))
    else
      match (os_makedirs directory (outside w)).2 with
      | inl e =>
          (set_outside (os_makedirs directory (outside w)).1
             (CallMakedirs directory) w, inl e)
      | inr _ =>
          (set_outside
             (client_download_file cl b k dest
                (os_makedirs directory (outside w)).1).1
             (CallDownload b k dest)
             (set_outside (os_makedirs directory (outside w)).1
                (CallMakedirs directory) w),
           reached (os_makedirs directory (outside w)).1)
      end.
Proof.
  intros Hcl. cbv zeta.
  pose proof (ensure_directory_run
                (posixpath.dirname (default (posixpath.basename k) l)) w)
    as Hen.
  destruct (String.eqb _ "").
  - by rewrite (download_file_run _ _ _ _ _ _ cl Hcl Hen).
  - destruct (os_makedirs _ (outside w)) as [σ1 [e | []]]; simpl in *.
    + by rewrite (download_file_makedirs_raises _ _ _ _ _ _ _ Hen).
    + by rewrite (download_file_run _ _ _ _ _ _ cl Hcl Hen).
Qed.

(** C7.  When [download_file] is called without a local path, the path it
    returns is the basename of the key.  When the destination has a
    directory part, [os.makedirs(directory, exist_ok=True)] is called first:
    if it raises, the download is not attempted; if it returns, the
    directory and all the directories above it exist in the state in which
    the boto3 download then runs, and the history shows the two calls in
    that order; when they all existed before, it raises nothing and changes
    nothing. *)
Theorem download_destination self b k l w cl :
  MakedirsContract Σ →
  attribute w self "client" = Some (AClient cl) →
  let dest := default (posixpath.basename k) l in
  let directory := posixpath.dirname dest in
  let made := os_makedirs directory (outside w) in
  let reached (σ : Σ) : exc + string :=
    match (client_download_file cl b k dest σ).2 with
    | inl e => inl (if isinstance_ClientError e then wrapped Download e else e)
    | inr _ => inr dest
    end in
  (l = None → final_segment dest k)
  ∧ (∀ w' p, download_file self b k l w = (w', inr p) → p = dest)
  ∧ (directory ≠ "" → ∀ e, made.2 = inl e →
       download_file self b k l w
         = (set_outside made.1 (CallMakedirs directory) w, inl e))
  ∧ (directory ≠ "" → made.2 = inr () →
       (∀ up, path_ancestor up directory → os_path_isdir made.1 up = true)
       ∧ download_file self b k l w
         = (set_outside (client_download_file cl b k dest made.1).1
              (CallDownload b k dest)
              (set_outside made.1 (CallMakedirs directory) w),
            reached made.1)
       ∧ history (download_file self b k l w).1
         = history w ++ [CallMakedirs directory; CallDownload b k dest])
  ∧ (directory ≠ "" →
     (∀ up, path_ancestor up directory →
            os_path_isdir (outside w) up = true) →
     made = (outside w, inr ()))
  ∧ (directory = "" →
       download_file self b k l w
         = (set_outside (client_download_file cl b k dest (outside w)).1
              (CallDownload b k dest) w,
            reached (outside w))).
Proof.
  intros Hcontract Hcl dest directory made reached.
  pose proof (download_file_cases self b k l w cl Hcl) as Hrun.
  cbv zeta in Hrun. subst reached made directory dest. cbv beta.
  set (dest := default (posixpath.basename k) l) in *.
  set (directory := posixpath.dirname dest) in *.
  set (made := os_makedirs directory (outside w)) in *.
  split_and!.
  - intros ->. apply basename_final_segment.
  - intros w' p Hr. rewrite Hrun in Hr.
    destruct (String.eqb directory "").
    + injection Hr as _ Hr.
      destruct (client_download_file cl b k dest (outside w)).2; congruence.
    + destruct made.2; [done |]. injection Hr as _ Hr.
      destruct (client_download_file cl b k dest made.1).2; congruence.
  - intros Hd e Hm. apply String.eqb_neq in Hd.
    by rewrite Hrun, Hd, Hm.
  - intros Hd Hm.
    assert (Hdl : download_file self b k l w
            = (set_outside (client_download_file cl b k dest made.1).1
                 (CallDownload b k dest)
                 (set_outside made.1 (CallMakedirs directory) w),
               match (client_download_file cl b k dest made.1).2 with
               | inl e =>
                   inl (if isinstance_ClientError e
                        then wrapped Download e else e)
               | inr _ => inr dest
               end)).
    { apply String.eqb_neq in Hd. by rewrite Hrun, Hd, Hm. }
    split_and!; [| done |].
    + intros up Ha. apply (makedirs_creates directory (outside w)); [| done].
      fold made. destruct made as [σ1 r]. simpl in Hm. by rewrite Hm.
    + rewrite Hdl. simpl. by rewrite <- app_assoc.
  - intros Hd Hall. by apply makedirs_exist_ok.
  - intros Hd. by rewrite Hrun, Hd.
Qed.

(** ** Listing under a prefix *)

(** C8.  [list_files] with a non-empty prefix asks boto3 for the keys under
    that prefix, and the entries it returns are the objects of the answer,
    each with its key, size and last modification: only keys that start
    with the prefix whenever the answer holds only such keys.  An answer
    without contents, or with none, gives the empty list and no error.  The
    operation raises only when the boto3 call raised. *)
Theorem list_files_prefix self b prefix w cl :
  attribute w self "client" = Some (AClient cl) →
  prefix ≠ "" →
  let answer := client_list_objects_v2 cl b (Some prefix) (outside w) in
  history (list_files self b (Some prefix) w).1
    = history w ++ [CallListObjects b (Some prefix)]
  ∧ (∀ response, answer.2 = inr response →
       let found := default [] (Contents response) in
       ∃ entries,
         (list_files self b (Some prefix) w).2 = inr entries
         ∧ key <$> entries = Key <$> found
         ∧ size <$> entries = Size <$> found
         ∧ last_modified <$> entries = LastModified <$> found
         ∧ (forallb (λ o, String.prefix prefix (Key o)) found = true →
            ∀ x, x ∈ entries → String.prefix prefix (key x) = true)
         ∧ (found = [] → entries = []))
  ∧ (∀ e, (list_files self b (Some prefix) w).2 = inl e →
       ∃ e0, answer.2 = inl e0
             ∧ e = if isinstance_ClientError e0
                   then wrapped Listing e0 else e0).
Proof.
  intros Hcl Hp answer.
  rewrite (list_files_run _ _ _ _ cl) by done.
  assert (Ht : truthy (Some prefix) = true).
  { simpl. apply negb_true_iff. by apply String.eqb_neq. }
  rewrite Ht. cbv zeta. fold answer. simpl. split_and!; [done | |].
  - intros response ->. cbv zeta. eexists. split; [done |].
    split_and!.
    + rewrite <- list_fmap_compose. by apply list_fmap_ext.
    + rewrite <- list_fmap_compose. by apply list_fmap_ext.
    + rewrite <- list_fmap_compose. by apply list_fmap_ext.
    + intros Hall x (o & -> & Ho)%list_elem_of_fmap. simpl.
      rewrite forallb_forall in Hall. apply Hall.
      by apply list_elem_of_In.
    + by intros ->.
  - intros e He. destruct answer.2 as [e0 |]; [| done].
    exists e0. split; [done |]. congruence.
Qed.

End Run.

(** * The in-memory service keeps the contract of [os.makedirs] *)

Section MemContract.

Lemma string_app_assoc (s t u : string) : (s +:+ t) +:+ u = s +:+ (t +:+ u).
Proof.
  induction s as [| x s IH]; [done |].
  change (String x ((s +:+ t) +:+ u) = String x (s +:+ t +:+ u)).
  by rewrite IH.
Qed.

Lemma string_app_empty_r (s : string) : s +:+ "" = s.
Proof.
  induction s as [| x s IH]; [done |].
  change (String x (s +:+ "") = String x s). by rewrite IH.
Qed.

Lemma elem_of_ancestors_from (acc s x : string) :
  x ∈ Mem.ancestors_from acc s
  ↔ x = acc +:+ s ∨ ∃ p rest, s = p +:+ "/" +:+ rest ∧ x = acc +:+ p.
Proof.
  revert acc. induction s as [| ch s IH]; intros acc; simpl.
  - rewrite list_elem_of_singleton, string_app_empty_r. split; [by left |].
    intros [-> | (p & rest & Hs & _)]; [done |]. by destruct p.
  - rewrite elem_of_app, IH, string_app_assoc.
    change (String ch "" +:+ s) with (String ch s).
    split.
    + intros [Hx | [-> | (p & rest & -> & ->)]].
      * destruct (Ascii.eqb ch "/") eqn:E; [| by apply elem_of_nil in Hx].
        apply list_elem_of_singleton in Hx as ->.
        apply Ascii.eqb_eq in E as ->.
        right. exists "", s. by rewrite string_app_empty_r.
      * by left.
      * right. exists (String ch p), rest. by rewrite string_app_assoc.
    + intros [-> | (p & rest & Hs & ->)]; [right; by left |].
      destruct p as [| ch' p].
      * injection Hs as -> ->. left. rewrite string_app_empty_r.
        apply list_elem_of_singleton. done.
      * injection Hs as -> ->. right. right. exists p, rest.
        by rewrite string_app_assoc.
Qed.

Lemma elem_of_ancestors (d x : string) :
  x ∈ Mem.ancestors d ↔ path_ancestor x d.
Proof.
  unfold Mem.ancestors, path_ancestor.
  rewrite list_elem_of_In, filter_In, <- list_elem_of_In.
  rewrite elem_of_ancestors_from, negb_true_iff, String.eqb_neq.
  split.
  - intros [[-> | (p & rest & -> & ->)] Hne]; (split; [done |]); eauto.
  - intros [Hne [-> | (rest & ->)]]; (split; [| done]); eauto.
Qed.

Lemma elem_of_mkdir_missing (x y : string) (ds : list string) :
  x ∈ Mem.mkdir_missing y ds ↔ x = y ∨ x ∈ ds.
Proof.
  unfold Mem.mkdir_missing. case_bool_decide; [| by rewrite elem_of_cons].
  split; [by right | by intros [-> |]].
Qed.

Lemma elem_of_foldr_mkdir (x : string) (l ds : list string) :
  x ∈ foldr Mem.mkdir_missing ds l ↔ x ∈ l ∨ x ∈ ds.
Proof.
  induction l as [| y l IH]; simpl.
  - split; [by right | by intros [?%elem_of_nil |]].
  - rewrite elem_of_mkdir_missing, IH, elem_of_cons. tauto.
Qed.

Lemma foldr_mkdir_present (l ds : list string) :
  (∀ x, x ∈ l → x ∈ ds) → foldr Mem.mkdir_missing ds l = ds.
Proof.
  induction l as [| y l IH]; intros Hall; simpl; [done |].
  rewrite IH by (intros x Hx; apply Hall; by right).
  unfold Mem.mkdir_missing. rewrite bool_decide_eq_true_2; [done |].
  apply Hall. by left.
Qed.

#[global] Instance mem_makedirs_contract : MakedirsContract Mem.store.
Proof.
  split.
  - intros d σ σ' [= <-] x Hx. simpl. unfold Mem.isdir; simpl.
    apply bool_decide_eq_true, elem_of_foldr_mkdir. left.
    by apply elem_of_ancestors.
  - intros d σ Hall. simpl. unfold Mem.makedirs.
    rewrite foldr_mkdir_present; [by destruct σ |].
    intros x Hx%elem_of_ancestors. specialize (Hall x Hx).
    by apply bool_decide_eq_true in Hall.
Qed.

End MemContract.

(** * The theorems at work on the in-memory service *)

Section Checks.

Import Scenario.

(** The spec's scenario: only [access_key] is set, and the error names
    [secret_access_key]. *)
Lemma missing_fields_reported_witness :
  wf started = true
  ∧ (construct S3Storage only_access_key started).2
    = inl (configuration_error S3Storage ["secret_access_key"]).
Proof.
  split; [reflexivity |].
  destruct (missing_fields_reported S3Storage only_access_key started eq_refl)
    as (_ & _ & _ & _ & H & _).
  apply H. vm_compute. discriminate.
Defined.

(** Closed facts are settled by evaluation. *)
Ltac evaluated := vm_compute; reflexivity.

(** A second [S3Storage(...)] call overwrites what the first client holds:
    the claim that nothing run later changes an attribute of a constructed
    client is false. *)
Lemma later_construction_overwrites :
  ¬ (∀ (c : cls) (a : Args) (w w1 : World Mem.store) (self : nat)
       (acts : list action) (name : string),
       wf w = true → construct c a w = (w1, inr self) →
       attribute (run acts w1) self name = attribute w1 self name).
Proof.
  intros H.
  specialize (H S3Storage first_keys started with_s3 0
                [Construct S3Storage second_keys] "access_key"
                ltac:(evaluated) ltac:(evaluated)).
  vm_compute in H. discriminate H.
Qed.

Lemma instance_bound_for_life_witness :
  wf started = true
  ∧ construct S3Storage first_keys started = (with_s3, inr 0)
  ∧ heap (run [UploadFile 0 "report.txt" "mybucket" None;
               Putenv "S3_ACCESS_KEY_ID" "AKIA-ENV";
               Construct R2Storage r2_keys;
               DeleteFile 0 "mybucket" "z.txt"] with_s3) !! 0
    = heap with_s3 !! 0.
Proof.
  split; [evaluated |]. split; [evaluated |].
  destruct (instance_bound_for_life S3Storage first_keys started with_s3 0
              ltac:(evaluated) ltac:(evaluated)) as (_ & H & _).
  by apply H.
Defined.

(** An explicit parameter that is the empty string is not what the client
    holds when the environment variable is set. *)
Lemma blank_parameter_not_held :
  ¬ (∀ (c : cls) (a : Args) (w : World Mem.store) (f v : string),
       wf w = true → f ∈ required_fields c → explicit_value a f = Some v →
       credential (construct c a w).1 (instance_ref c w) f = Some (AStr v)).
Proof.
  intros H.
  specialize (H S3Storage blank_access_key (boot s3_environ Mem.example)
                "access_key" "" ltac:(evaluated) ltac:(by left) ltac:(evaluated)).
  vm_compute in H. discriminate H.
Qed.

Lemma credential_resolution_witness :
  wf (boot s3_environ Mem.example) = true
  ∧ "access_key" ∈ required_fields S3Storage
  ∧ credential (construct S3Storage blank_access_key
                  (boot s3_environ Mem.example)).1 0 "access_key"
    = Some (AStr "AKIA-ENV").
Proof.
  split; [evaluated |]. split; [by left |].
  destruct (credential_resolution S3Storage blank_access_key
              (boot s3_environ Mem.example) "access_key"
              ltac:(evaluated) ltac:(by left)) as (_ & _ & H & _).
  apply H; [by right | reflexivity].
Defined.

(** A later [S3Storage('', ...)] call that raises, with the variable set to
    the empty string, leaves the empty string in the client constructed
    before: a constructed client can come to hold an empty credential. *)
Lemma failed_call_blanks_credential :
  ¬ (∀ (c : cls) (a : Args) (w w' : World Mem.store) (self : nat)
       (acts : list action) (f : string),
       wf w = true → construct c a w = (w', inr self) →
       f ∈ required_fields c →
       credential (run acts w') self f ≠ Some (AStr "")).
Proof.
  intros H.
  apply (H S3Storage first_keys (boot blank_environ Mem.example)
           (construct S3Storage first_keys
              (boot blank_environ Mem.example)).1
           0 [Construct S3Storage blank_access_key] "access_key");
    [evaluated | evaluated | by left | evaluated].
Qed.

Lemma empty_string_is_absent_witness :
  wf started = true
  ∧ construct S3Storage blank_access_key started
    = construct S3Storage (keys None (Some "secret-one")) started.
Proof.
  split; [evaluated |].
  destruct (empty_string_is_absent S3Storage blank_access_key started ltac:(evaluated))
    as (H & _).
  exact H.
Defined.

(** With the endpoint out of reach, [upload_file] raises botocore's
    [EndpointConnectionError] as it is, not wrapped as an upload failure. *)
Lemma transport_failure_not_wrapped :
  ¬ (∀ (w : World Mem.store) (self : nat) (cl : Client) (l b : string)
       (k : option string) (e : exc),
       attribute w self "client" = Some (AClient cl) →
       (client_upload_file cl l b (default (posixpath.basename l) k)
          (outside w)).2 = inl e →
       (upload_file self l b k w).2 = inl (wrapped Upload e)).
Proof.
  intros H.
  specialize (H cut_off 0 s3_client "report.txt" "mybucket" None
                Mem.unreachable ltac:(evaluated) ltac:(evaluated)).
  vm_compute in H. discriminate H.
Qed.

Lemma client_errors_wrapped_witness :
  attribute with_s3 0 "client" = Some (AClient s3_client)
  ∧ (get_file_metadata 0 "mybucket" "missing.txt" with_s3).2
    = inl (wrapped MetadataLookup (Mem.not_found "HeadObject")).
Proof.
  split; [evaluated |].
  destruct (client_errors_wrapped 0 with_s3 s3_client ltac:(evaluated))
    as (_ & _ & _ & _ & H & _).
  by apply (H "mybucket" "missing.txt" (Mem.not_found "HeadObject")).
Defined.

(** With the endpoint out of reach, [file_exists] raises. *)
Lemma file_exists_raises :
  ¬ (∀ (w : World Mem.store) (self : nat) (cl : Client) (b k : string),
       attribute w self "client" = Some (AClient cl) →
       ∃ r : bool, (file_exists self b k w).2 = inr r).
Proof.
  intros H.
  destruct (H cut_off 0 s3_client "mybucket" "a/b.txt" ltac:(evaluated)) as [r Hr].
  vm_compute in Hr. discriminate Hr.
Qed.

Lemma file_exists_outcome_witness :
  attribute with_s3 0 "client" = Some (AClient s3_client)
  ∧ (file_exists 0 "mybucket" "missing.txt" with_s3).2 = inr false
  ∧ (file_exists 0 "mybucket" "a/b.txt" with_s3).2 = inr true.
Proof.
  split; [evaluated |]. split.
  - destruct (file_exists_outcome 0 "mybucket" "missing.txt" with_s3 s3_client
                ltac:(evaluated)) as (_ & _ & H & _).
    by apply (H (Mem.not_found "HeadObject")).
  - destruct (file_exists_outcome 0 "mybucket" "a/b.txt" with_s3 s3_client
                ltac:(evaluated)) as (_ & H & _).
    by eapply H.
Defined.

Lemma upload_key_resolution_witness :
  attribute with_s3 0 "client" = Some (AClient s3_client)
  ∧ obj_class <$> heap with_s3 !! 0 = Some S3Storage
  ∧ final_segment "report.txt" "dir/report.txt"
  ∧ ∃ url, (upload_file 0 "dir/report.txt" "mybucket" None with_s3).2
           = inr ("report.txt", url).
Proof.
  split; [evaluated |]. split; [evaluated |].
  destruct (upload_key_resolution 0 "dir/report.txt" "mybucket" None with_s3
              s3_client S3Storage ltac:(evaluated) ltac:(evaluated)) as (H1 & H2 & _).
  split; [by apply H1 | by apply (H2 ())].
Defined.

Lemma storage_url_format_witness :
  obj_class <$> heap with_both !! 1 = Some R2Storage
  ∧ (upload_file 1 "dir/report.txt" "mybucket" None with_both).2
    = inr ("report.txt", "r2://mybucket/report.txt").
Proof.
  split; [evaluated |].
  destruct (storage_url_format 1 "dir/report.txt" "mybucket" None with_both
              R2Storage ltac:(evaluated)) as (_ & _ & _ & _ & H).
  by apply (H r2_client ()).
Defined.

(** The spec's example: downloading to [out/nested/file.txt] when neither
    directory exists. *)
Lemma download_destination_witness :
  attribute with_s3 0 "client" = Some (AClient s3_client)
  ∧ history (download_file 0 "mybucket" "a/b.txt"
               (Some "out/nested/file.txt") with_s3).1
    = [CallMakedirs "out/nested";
       CallDownload "mybucket" "a/b.txt" "out/nested/file.txt"].
Proof.
  split; [evaluated |].
  destruct (download_destination 0 "mybucket" "a/b.txt"
              (Some "out/nested/file.txt") with_s3 s3_client _ ltac:(evaluated))
    as (_ & _ & _ & H & _).
  by destruct H as (_ & _ & H).
Defined.

Lemma list_files_prefix_witness :
  attribute with_s3 0 "client" = Some (AClient s3_client)
  ∧ "a/" ≠ ""
  ∧ ∃ entries,
      (list_files 0 "mybucket" (Some "a/") with_s3).2 = inr entries
      ∧ key <$> entries = ["a/b.txt"; "a/c.txt"].
Proof.
  split; [evaluated |]. split; [discriminate |].
  destruct (list_files_prefix 0 "mybucket" "a/" with_s3 s3_client ltac:(evaluated)
              ltac:(discriminate)) as (_ & H & _).
  destruct (H _ ltac:(evaluated)) as (entries & He & Hk & _).
  by exists entries.
Defined.

End Checks.

(** * Further properties of the package *)

Section Further.

Context {Σ : Type} `{!Boto3 Σ}.
Implicit Types (w : World Σ) (c : cls) (a : Args) (self : nat).

(** ** The client a constructor call creates *)

Lemma attribute_with_object self f w name :
  attribute (with_object self f w) self name
  = o ← heap w !! self; obj_dict (f o) !! name.
Proof.
  unfold attribute, with_object; simpl. rewrite list_lookup_alter_eq.
  by destruct (heap w !! self).
Qed.

Lemma store_credentials_client c a env o :
  obj_dict (store_credentials c a env o) !! "client" = obj_dict o !! "client".
Proof. destruct c; unfold store_credentials; simpl; by simplify_map_eq. Qed.

Lemma attribute_new c w name :
  attribute (StorageInterface__new__ c w).1 (instance_ref c w) name
  = attribute w (instance_ref c w) name.
Proof.
  rewrite new_run. unfold instance_ref, attribute.
  destruct (cls_instance c w) as [l |]; simpl; [done |].
  replace (heap (set_cls_instance c (length (heap w))
             (set_heap (heap w ++ [ {| obj_class := c; obj_dict := ∅ |} ]) w)))
    with (heap w ++ [ {| obj_class := c; obj_dict := ∅ |} ]) by by destruct c.
  rewrite lookup_app_r, Nat.sub_diag by done. simpl.
  by rewrite (lookup_ge_None_2 (heap w)).
Qed.

Lemma resolved_truthy c a env f :
  missing_fields c a env = [] → f ∈ required_fields c →
  ∃ s, resolved c a env f = Some s ∧ s ≠ "".
Proof.
  intros Hm Hf. apply truthy_Some.
  destruct (truthy (resolved c a env f)) eqn:Et; [done |].
  assert (f ∈ missing_fields c a env) as Hin.
  { apply elem_of_missing_fields. split; [done |].
    by rewrite is_missing_truthy, Et. }
  rewrite Hm in Hin. by apply elem_of_nil in Hin.
Qed.

(** X1.  When a constructor call returns, the client it stored is the one
    [boto3.client] made from the resolved access key and secret, with no
    endpoint for S3 and [https://<account_id>.r2.cloudflarestorage.com] for
    R2, and with region ['auto'] exactly when [region] is [None] (a region
    given as the empty string is passed on as it is). *)
Theorem client_built_from_resolved_credentials c a w w' self :
  wf w = true → construct c a w = (w', inr self) →
  ∃ client,
    boto3_client
      {| aws_access_key_id := resolved c a (environ w) "access_key";
         aws_secret_access_key :=
           resolved c a (environ w) "secret_access_key";
         endpoint_url :=
           match c with
           | S3Storage => None
           | R2Storage =>
               Some ("https://"
                       +:+ default "" (resolved c a (environ w) "account_id")
                       +:+ ".r2.cloudflarestorage.com")
           end;
         region_name :=
           match arg_region a with
           | None => "auto"
           | Some region => region
           end |} = inr client
    ∧ attribute w' self "client" = Some (AClient client).
Proof.
  intros Hwf Hc. destruct (new_lookup c w Hwf) as (o & Ho & _).
  rewrite construct_run in Hc by done.
  unfold construct_outcome, init_outcome in Hc. rewrite new_environ in Hc.
  destruct (missing_fields c a (environ w)) eqn:Em; [| done].
  destruct (boto3_client (resolved_config c a (environ w)))
    as [e | client] eqn:Eb; [done |].
  injection Hc as <- <-. exists client. split.
  - rewrite <- Eb. f_equal. unfold resolved_config. f_equal.
    destruct c; [done |].
    destruct (resolved_truthy R2Storage a (environ w) "account_id" Em)
      as (s & -> & _); [by apply (bool_decide_unpack _) | done].
  - rewrite attribute_with_object.
    rewrite (with_object_lookup _ _ _ _ Ho). simpl.
    by rewrite lookup_insert_eq.
Qed.

(** X2.  A constructor call that raises (fields missing, or [boto3.client]
    failed) has nevertheless registered the object as the instance of the
    class and overwritten its credential attributes; the [client] attribute
    is as it was before the call: absent on a fresh object, the old handle
    on an instance constructed earlier. *)
Theorem failed_construction_keeps_client c a w e :
  wf w = true → (construct c a w).2 = inl e →
  cls_instance c (construct c a w).1 = Some (instance_ref c w)
  ∧ attribute (construct c a w).1 (instance_ref c w) "client"
    = attribute w (instance_ref c w) "client"
  ∧ (∀ f, f ∈ required_fields c →
       credential (construct c a w).1 (instance_ref c w) f
       = Some (attr_of (resolved c a (environ w) f))).
Proof.
  intros Hwf He. split_and!.
  - by apply construct_slot.
  - rewrite construct_run in He |- * by done.
    unfold construct_outcome, init_outcome in *.
    destruct (missing_fields c a _); simpl in *.
    + destruct (boto3_client _); simpl in *; [| done].
      rewrite attribute_with_object, <- attribute_new with (c := c).
      unfold attribute.
      destruct (heap _ !! instance_ref c w); simpl; [| done].
      apply store_credentials_client.
    + rewrite attribute_with_object, <- attribute_new with (c := c).
      unfold attribute.
      destruct (heap _ !! instance_ref c w); simpl; [| done].
      apply store_credentials_client.
  - intros f Hf. by apply credential_construct.
Qed.

Lemma py_or_truthy x y : truthy x = true → py_or x y = x.
Proof. unfold py_or. by intros ->. Qed.

(** X3.  When every required field is given explicitly and non-empty, the
    package does not consult the environment: whatever the environment
    holds, the constructor call stores the explicit values, reports no
    missing field, and hands [boto3.client] the configuration made from the
    arguments alone; it returns the instance unless [boto3.client] fails
    on that configuration. *)
Theorem explicit_credentials_ignore_environment c a w :
  wf w = true →
  forallb (λ f, truthy (explicit_value a f)) (required_fields c) = true →
  (∀ f, f ∈ required_fields c →
     credential (construct c a w).1 (instance_ref c w) f
     = Some (attr_of (explicit_value a f)))
  ∧ (construct c a w).2
    = match boto3_client
              {| aws_access_key_id := arg_access_key a;
                 aws_secret_access_key := arg_secret_access_key a;
                 endpoint_url :=
                   match c with
                   | S3Storage => None
                   | R2Storage =>
                       Some ("https://" +:+ default "" (arg_account_id a)
                               +:+ ".r2.cloudflarestorage.com")
                   end;
                 region_name :=
                   match arg_region a with
                   | None => "auto"
                   | Some region => region
                   end |} with
      | inl e => inl e
      | inr _ => inr (instance_ref c w)
      end.
Proof.
  intros Hwf Hall.
  assert (Ht : ∀ f, f ∈ required_fields c → truthy (explicit_value a f) = true).
  { intros f Hf. rewrite forallb_forall in Hall.
    by apply Hall, list_elem_of_In. }
  assert (Hres : ∀ f, f ∈ required_fields c →
            resolved c a (environ w) f = explicit_value a f).
  { intros f Hf. unfold resolved. by apply py_or_truthy, Ht. }
  split.
  - intros f Hf. rewrite credential_construct by done. by rewrite Hres.
  - rewrite construct_result_run by done.
    assert (Hm : missing_fields c a (environ w) = []).
    { destruct (missing_fields c a (environ w)) as [| f fs] eqn:Em; [done |].
      assert (f ∈ missing_fields c a (environ w)) as Hin
        by (rewrite Em; by left).
      apply elem_of_missing_fields in Hin as [Hf Hmiss].
      rewrite (Hres f Hf), is_missing_truthy, (Ht f Hf) in Hmiss. done. }
    rewrite Hm.
    assert (Hcfg : resolved_config c a (environ w)
              = {| aws_access_key_id := arg_access_key a;
                   aws_secret_access_key := arg_secret_access_key a;
                   endpoint_url :=
                     match c with
                     | S3Storage => None
                     | R2Storage =>
                         Some ("https://" +:+ default "" (arg_account_id a)
                                 +:+ ".r2.cloudflarestorage.com")
                     end;
                   region_name :=
                     match arg_region a with
                     | None => "auto"
                     | Some region => region
                     end |}).
    { unfold resolved_config. destruct c.
      - rewrite !Hres by by apply (bool_decide_unpack _). done.
      - rewrite !Hres by by apply (bool_decide_unpack _).
        assert (truthy (arg_account_id a) = true) as Hacc
          by by apply (Ht "account_id"), (bool_decide_unpack _).
        apply truthy_Some in Hacc as (s & Hs & _).
        change (explicit_value a "account_id") with (arg_account_id a).
        by rewrite Hs. }
    by rewrite Hcfg.
Qed.

(** ** One object per class *)

Lemma cls_instance_with_object c self f w :
  cls_instance c (with_object self f w) = cls_instance c w.
Proof. by destruct c. Qed.

Lemma registered_with_object self f w :
  (∀ o, obj_class (f o) = obj_class o) →
  (∀ l o, heap w !! l = Some o → cls_instance (obj_class o) w = Some l) →
  ∀ l o, heap (with_object self f w) !! l = Some o →
         cls_instance (obj_class o) (with_object self f w) = Some l.
Proof.
  intros Hf Hreg l o'. rewrite cls_instance_with_object.
  unfold with_object; simpl. rewrite list_lookup_alter.
  destruct (decide (self = l)) as [-> |]; [| by apply Hreg].
  destruct (heap w !! l) as [o |] eqn:Eo; simpl; [| done].
  intros [= <-]. rewrite Hf. by apply Hreg.
Qed.

Lemma registered_new c w :
  (∀ l o, heap w !! l = Some o → cls_instance (obj_class o) w = Some l) →
  ∀ l o, heap (StorageInterface__new__ c w).1 !! l = Some o →
         cls_instance (obj_class o) (StorageInterface__new__ c w).1 = Some l.
Proof.
  intros Hreg l o. rewrite new_run.
  destruct (cls_instance c w) as [l0 |] eqn:Ec; simpl; [by apply Hreg |].
  replace (heap (set_cls_instance c (length (heap w))
             (set_heap (heap w ++ [ {| obj_class := c; obj_dict := ∅ |} ]) w)))
    with (heap w ++ [ {| obj_class := c; obj_dict := ∅ |} ]) by by destruct c.
  intros [Ho | [Hl Ho]]%lookup_app_Some.
  - pose proof (Hreg l o Ho) as Hs.
    assert (obj_class o ≠ c) as Hne by congruence.
    rewrite <- Hs. by destruct c, (obj_class o).
  - apply list_lookup_singleton_Some in Ho as [Hz <-]. simpl.
    assert (l = length (heap w)) as -> by lia. by destruct c.
Qed.

Lemma registered_construct c a w :
  wf w = true →
  (∀ l o, heap w !! l = Some o → cls_instance (obj_class o) w = Some l) →
  ∀ l o, heap (construct c a w).1 !! l = Some o →
         cls_instance (obj_class o) (construct c a w).1 = Some l.
Proof.
  intros Hwf Hreg. rewrite construct_world by done.
  pose proof (registered_new c w Hreg) as Hnew.
  unfold init_outcome. rewrite new_environ.
  destruct (missing_fields c a (environ w)); cbn [fst].
  - destruct (boto3_client _); cbn [fst];
      repeat (apply registered_with_object;
              [by (done || apply store_credentials_class) |]); done.
  - apply registered_with_object;
      [by apply store_credentials_class | done].
Qed.

Lemma registered_run env (σ : Σ) acts :
  wf (run acts (boot env σ)) = true
  ∧ ∀ l o, heap (run acts (boot env σ)) !! l = Some o →
           cls_instance (obj_class o) (run acts (boot env σ)) = Some l.
Proof.
  assert (∀ w, wf w = true →
            (∀ l o, heap w !! l = Some o →
                    cls_instance (obj_class o) w = Some l) →
            wf (run acts w) = true
            ∧ ∀ l o, heap (run acts w) !! l = Some o →
                     cls_instance (obj_class o) (run acts w) = Some l) as H.
  { induction acts as [| act acts IH]; intros w Hwf Hreg; [done |].
    simpl. apply IH; [by apply wf_exec |].
    destruct (action_cases act) as [(c & a & ->) | Hact].
    - by apply registered_construct.
    - destruct (not_construct_objects act w Hact) as [Hh Hs].
      intros l o. rewrite Hh, Hs. apply Hreg. }
  apply H; [done |]. by intros l o [=].
Qed.

(** X4.  For programs that construct [S3Storage] and [R2Storage] clients
    only (never [S3BaseStorage] itself, whose [_instance] the two classes
    would inherit): in every world such a program can reach, there are at
    most two objects, no two of the same class, and each is the registered
    instance of its class.  So two constructor calls return the same
    reference exactly when they are calls of the same class. *)
Theorem one_instance_per_class env (σ : Σ) acts :
  let w := run acts (boot env σ) in
  length (heap w) ≤ 2
  ∧ (∀ l o, heap w !! l = Some o → cls_instance (obj_class o) w = Some l)
  ∧ (∀ l l' o o', heap w !! l = Some o → heap w !! l' = Some o' →
                  obj_class o = obj_class o' → l = l')
  ∧ (∀ c c' a a' acts' w1 s w2 s',
       construct c a w = (w1, inr s) →
       construct c' a' (run acts' w1) = (w2, inr s') →
       s = s' ↔ c = c').
Proof.
  intros w. destruct (registered_run env σ acts) as [Hwf Hreg]. fold w in Hwf, Hreg.
  assert (Hinj : ∀ l l' o o', heap w !! l = Some o → heap w !! l' = Some o' →
                   obj_class o = obj_class o' → l = l').
  { intros l l' o o' Ho Ho' Hc. apply Hreg in Ho, Ho'.
    rewrite Hc in Ho. congruence. }
  split_and!; [| done | done |].
  - destruct (heap w) as [| o0 [| o1 [| o2 h]]] eqn:Eh; simpl; try lia.
    pose proof (Hinj 0 1 o0 o1 eq_refl eq_refl) as H01.
    pose proof (Hinj 0 2 o0 o2 eq_refl eq_refl) as H02.
    pose proof (Hinj 1 2 o1 o2 eq_refl eq_refl) as H12.
    destruct (obj_class o0), (obj_class o1), (obj_class o2);
      (by specialize (H01 eq_refl)) || (by specialize (H02 eq_refl))
      || (by specialize (H12 eq_refl)).
  - intros c c' a a' acts' w1 s w2 s' Hc Hc'.
    pose proof (construct_result _ _ _ _ _ Hwf Hc) as ->.
    assert (Hw1 : w1 = (construct c a w).1) by by rewrite Hc.
    assert (Hwf1 : wf w1 = true) by (rewrite Hw1; by apply wf_construct).
    assert (Hs1 : cls_instance c w1 = Some (instance_ref c w))
      by (rewrite Hw1; by apply construct_slot).
    destruct (run_slot c _ acts' w1 Hwf1 Hs1) as [Hwf2 Hs2].
    pose proof (construct_result _ _ _ _ _ Hwf2 Hc') as ->.
    split.
    + intros Heq. destruct (decide (c = c')) as [| Hne]; [done |].
      by destruct (instance_ref_other c c' _ _ Hwf2 ltac:(done) Hs2).
    + intros <-. unfold instance_ref at 2. by rewrite Hs2.
Qed.

(** ** Existence, metadata and deletion *)

(** X5.  [file_exists] and [get_file_metadata] make the same head-object
    call, so on the same world they agree: the one returns true exactly
    when the other returns metadata, and that metadata carries the length,
    content type and date of the answer, with an empty mapping when the
    answer has no ['Metadata'].  When [file_exists] returns false,
    [get_file_metadata] raises the wrapped client error. *)
Theorem exists_agrees_with_metadata self b k w cl :
  attribute w self "client" = Some (AClient cl) →
  ((file_exists self b k w).2 = inr true
   ↔ ∃ m, (get_file_metadata self b k w).2 = inr m)
  ∧ ((file_exists self b k w).2 = inr false →
     ∃ e, isinstance_ClientError e = true
          ∧ (get_file_metadata self b k w).2 = inl (wrapped MetadataLookup e))
  ∧ (∀ m, (get_file_metadata self b k w).2 = inr m →
       ∃ response,
         (client_head_object cl b k (outside w)).2 = inr response
         ∧ content_length m = ContentLength response
         ∧ content_type m = ContentType response
         ∧ meta_last_modified m = HeadLastModified response
         ∧ metadata m = default ∅ (Metadata response))
  ∧ (file_exists self b k w).1 = (get_file_metadata self b k w).1.
Proof.
  intros Hcl.
  rewrite (file_exists_run _ _ _ _ cl), (get_file_metadata_run _ _ _ _ cl)
    by done.
  simpl. destruct (client_head_object cl b k (outside w)).2 as [e | r].
  - destruct (isinstance_ClientError e) eqn:Ee; split_and!; try done.
    + split; [done | by intros [m ?]].
    + intros _. by exists e.
    + split; [done | by intros [m ?]].
  - split_and!; try done.
    + split; [by eexists | done].
    + intros m [= <-]. by exists r.
Qed.

(** X6.  [delete_file] makes one delete-object call and nothing else: it
    does not look whether the object exists.  It returns true exactly when
    that call returns, and raises otherwise. *)
Theorem delete_file_one_call self b k w cl :
  attribute w self "client" = Some (AClient cl) →
  history (delete_file self b k w).1 = history w ++ [CallDeleteObject b k]
  ∧ outside (delete_file self b k w).1
    = (client_delete_object cl b k (outside w)).1
  ∧ (∀ r, (delete_file self b k w).2 = inr r →
          r = true ∧ ∃ u, (client_delete_object cl b k (outside w)).2 = inr u)
  ∧ (∀ u, (client_delete_object cl b k (outside w)).2 = inr u →
          (delete_file self b k w).2 = inr true).
Proof.
  intros Hcl. rewrite (delete_file_run _ _ _ _ cl) by done. simpl.
  split_and!; try done.
  - intros r. destruct (client_delete_object cl b k (outside w)).2 as [e | u];
      [done |]. intros [= <-]. eauto.
  - by intros u ->.
Qed.

(** ** Listing without a prefix *)

(** X7.  A prefix given as the empty string is no prefix: [list_files]
    does with it what it does with [None], a listing call without
    [Prefix].  The entries come in the order of the answer, one for each
    object. *)
Theorem list_files_without_prefix self b w cl :
  attribute w self "client" = Some (AClient cl) →
  list_files self b (Some "") w = list_files self b None w
  ∧ history (list_files self b None w).1
    = history w ++ [CallListObjects b None]
  ∧ (∀ response,
       (client_list_objects_v2 cl b None (outside w)).2 = inr response →
       ∃ entries,
         (list_files self b None w).2 = inr entries
         ∧ length entries = length (default [] (Contents response))
         ∧ ∀ i o, default [] (Contents response) !! i = Some o →
                  entries !! i
                  = Some {| key := Key o; size := Size o;
                            last_modified := LastModified o |}).
Proof.
  intros Hcl. split; [done |].
  rewrite (list_files_run _ _ _ _ cl) by done. simpl.
  split; [done |]. intros response ->. eexists. split; [done |].
  split; [by rewrite length_fmap |].
  intros i o Ho. by rewrite list_lookup_fmap, Ho.
Qed.

(** ** Paths with and without a separator *)

Lemma rfind_absent ch s :
  posixpath.contains ch s = false → posixpath.rfind ch s = (-1)%Z.
Proof. intros H. unfold posixpath.rfind. by rewrite rfind_from_shift, H. Qed.

Lemma rfind_present ch s :
  posixpath.contains ch s = true → (0 ≤ posixpath.rfind ch s)%Z.
Proof.
  induction s as [| x s IH]; [done |]. simpl. rewrite rfind_cons.
  destruct (posixpath.contains ch s); [intros _; specialize (IH eq_refl); lia |].
  rewrite orb_false_r. by intros ->.
Qed.

Lemma basename_no_sep k : no_sep k → posixpath.basename k = k.
Proof.
  intros H. unfold posixpath.basename, posixpath.slice_from.
  by rewrite (rfind_absent _ _ H).
Qed.

Lemma dirname_no_sep p :
  posixpath.contains posixpath.sep p = false → posixpath.dirname p = "".
Proof.
  intros H. unfold posixpath.dirname, posixpath.slice_to.
  by rewrite (rfind_absent _ _ H).
Qed.

Lemma rstrip_empty ch s :
  posixpath.rstrip ch s = "" →
  s = posixpath.repeat_char ch (String.length s).
Proof.
  induction s as [| x s IH]; [done |]. simpl.
  destruct (posixpath.rstrip ch s) eqn:Er; [| done].
  destruct (Ascii.eqb x ch) eqn:Ex; [| done].
  intros _. apply Ascii.eqb_eq in Ex as ->. by rewrite <- IH.
Qed.

Lemma strip_nonempty head :
  head ≠ "" →
  (if negb (String.eqb head "")
      && negb (String.eqb head
                 (posixpath.repeat_char posixpath.sep (String.length head)))
   then posixpath.rstrip posixpath.sep head
   else head) ≠ "".
Proof.
  intros Hne. rewrite (proj2 (String.eqb_neq head "") Hne). simpl negb.
  rewrite andb_true_l.
  destruct (String.eqb head
              (posixpath.repeat_char posixpath.sep (String.length head)))
    eqn:Eh; [done |].
  simpl negb. cbv iota. intros He%rstrip_empty.
  by apply String.eqb_neq in Eh.
Qed.

Lemma dirname_sep p :
  posixpath.contains posixpath.sep p = true → posixpath.dirname p ≠ "".
Proof.
  intros H. pose proof (rfind_present _ _ H) as Hr.
  unfold posixpath.dirname, posixpath.slice_to. apply strip_nonempty.
  destruct (Z.to_nat (posixpath.rfind posixpath.sep p + 1)) as [| n] eqn:En;
    [lia |].
  by destruct p.
Qed.

(** X8.  What [upload_file] stored under the default key, [download_file]
    fetches by default into a file of that very name in the current
    directory: the key holds no separator, so the local path is the key
    itself and [os.makedirs] is not called. *)
Theorem upload_then_download_by_default self l b w w1 key url cl :
  attribute w self "client" = Some (AClient cl) →
  upload_file self l b None w = (w1, inr (key, url)) →
  history (download_file self b key None w1).1
    = history w1 ++ [CallDownload b key key]
  ∧ outside (download_file self b key None w1).1
    = (client_download_file cl b key key (outside w1)).1
  ∧ (∀ u, (client_download_file cl b key key (outside w1)).2 = inr u →
          (download_file self b key None w1).2 = inr key)
  ∧ (∀ p, (download_file self b key None w1).2 = inr p → p = key).
Proof.
  intros Hcl Hup.
  assert (Hcl1 : attribute w1 self "client" = Some (AClient cl)).
  { pose proof (preserves_upload_file self l b None w) as Hp.
    rewrite Hup in Hp. apply inner_eq in Hp as (_ & Hh & _).
    unfold attribute in *. simpl in Hh. by rewrite Hh. }
  apply upload_file_returns in Hup as [-> _]. simpl.
  destruct (basename_final_segment l) as [Hn _].
  rewrite (download_file_cases _ _ _ _ _ cl) by done. cbv zeta. simpl.
  rewrite (basename_no_sep _ Hn), (dirname_no_sep _ Hn). simpl.
  split_and!; try done.
  - by intros u ->.
  - intros p.
    destruct (client_download_file cl b _ _ (outside w1)).2; congruence.
Qed.

(** X9.  [download_file] calls [os.makedirs] exactly when the destination
    path holds a separator, and then before anything else: when it raises,
    that is the only call and the operation raises the same; when it
    returns, the boto3 download follows.  A destination without a separator
    is written to the current directory after the one boto3 call. *)
Theorem makedirs_iff_separator self b k l w cl :
  attribute w self "client" = Some (AClient cl) →
  let dest := default (posixpath.basename k) l in
  let made := (os_makedirs (posixpath.dirname dest) (outside w)).2 in
  (posixpath.contains posixpath.sep dest = false →
     history (download_file self b k l w).1
       = history w ++ [CallDownload b k dest])
  ∧ (posixpath.contains posixpath.sep dest = true →
       posixpath.dirname dest ≠ ""
       ∧ (∀ e, made = inl e →
            history (download_file self b k l w).1
              = history w ++ [CallMakedirs (posixpath.dirname dest)]
            ∧ (download_file self b k l w).2 = inl e)
       ∧ (∀ u, made = inr u →
            history (download_file self b k l w).1
              = history w ++ [CallMakedirs (posixpath.dirname dest);
                              CallDownload b k dest])).
Proof.
  intros Hcl dest made.
  rewrite (download_file_cases _ _ _ _ _ cl) by done. cbv zeta.
  fold dest. fold made.
  split.
  - intros Hn. by rewrite (dirname_no_sep _ Hn).
  - intros Hs. pose proof (dirname_sep _ Hs) as Hd. split; [done |].
    apply String.eqb_neq in Hd. rewrite Hd. split.
    + by intros e ->.
    + intros u ->. simpl. by rewrite <- app_assoc.
Qed.

(** ** Reading a storage URL back *)

Lemma no_sep_cons x s :
  no_sep (String x s) → Ascii.eqb x posixpath.sep = false ∧ no_sep s.
Proof. unfold no_sep; simpl. by intros [? ?]%orb_false_iff. Qed.

Lemma separator_splits b b' k k' :
  no_sep b → no_sep b' →
  b +:+ "/" +:+ k = b' +:+ "/" +:+ k' → b = b' ∧ k = k'.
Proof.
  revert b'. induction b as [| x b IH]; intros [| x' b'] Hb Hb' H;
    rewrite ?app_String, ?app_empty_l in H.
  - by injection H as ->.
  - injection H as <- _. by apply no_sep_cons in Hb' as [? _].
  - injection H as -> _. by apply no_sep_cons in Hb as [? _].
  - injection H as -> H.
    apply no_sep_cons in Hb as [_ Hb]. apply no_sep_cons in Hb' as [_ Hb'].
    destruct (IH b' Hb Hb' H) as [-> ->]. done.
Qed.

(** X10.  A storage URL tells the backend it came from, and the bucket and
    key as well when the bucket names hold no ["/"]: nothing else is needed
    to read it back, although nothing is validated when it is written. *)
Theorem storage_url_decodes c c' b b' k k' :
  cls_get_storage_url c b k = cls_get_storage_url c' b' k' →
  c = c' ∧ (no_sep b → no_sep b' → b = b' ∧ k = k').
Proof.
  intros H.
  assert (c = c') as <-.
  { destruct c, c'; try done;
      cbv [cls_get_storage_url S3Storage_get_storage_url
           R2Storage_get_storage_url String.app String.append] in H;
      discriminate H. }
  split; [done |]. intros Hb Hb'. apply separator_splits; [done | done |].
  destruct c;
    cbv [cls_get_storage_url S3Storage_get_storage_url
         R2Storage_get_storage_url] in H;
    change (?p +:+ ?x = ?p +:+ ?y) with
      (String.app p x = String.app p y) in H;
    by apply (inj (String.app _)) in H.
Qed.

(** ** What an operation may touch *)

Lemma calls_ret {A : Type} (x : A) : makes_calls (Σ:=Σ) 0 (mret x : @M Σ A).
Proof. intros w. exists []. by rewrite app_nil_r. Qed.

Lemma calls_raise {A : Type} (e : exc) :
  makes_calls (Σ:=Σ) 0 (raise e : @M Σ A).
Proof. intros w. exists []. by rewrite app_nil_r. Qed.

Lemma calls_getattr self name : makes_calls (Σ:=Σ) 0 (getattr self name).
Proof.
  intros w. exists []. rewrite app_nil_r. unfold getattr.
  destruct (heap w !! self) as [o |]; [| done].
  by destruct (obj_dict o !! name).
Qed.

Lemma calls_deref self : makes_calls (Σ:=Σ) 0 (deref self).
Proof. intros w. exists []. by rewrite app_nil_r. Qed.

Lemma calls_outside_call {A : Type} (k : call) (f : Σ -> Σ * (exc + A)) :
  makes_calls (Σ:=Σ) 1 (outside_call k f).
Proof.
  intros w. exists [k]. unfold outside_call.
  by destruct (f (outside w)).
Qed.

Lemma calls_bind {A B : Type} n1 n2 (m : @M Σ A) (f : A -> @M Σ B) :
  makes_calls n1 m → (∀ x, makes_calls (Σ:=Σ) n2 (f x)) →
  makes_calls (n1 + n2) (m ≫= f).
Proof.
  intros Hm Hf w. rewrite bind_run. destruct (Hm w) as (k1 & H1 & L1).
  destruct (m w) as [w' [e | x]]; simpl in *.
  - exists k1. split; [done | lia].
  - destruct (Hf x w') as (k2 & H2 & L2). exists (k1 ++ k2).
    rewrite H2, H1, length_app, <- app_assoc. split; [done | lia].
Qed.

Lemma calls_try {A : Type} n1 n2 (m : @M Σ A) (h : exc -> @M Σ A) :
  makes_calls n1 m → (∀ e, makes_calls (Σ:=Σ) n2 (h e)) →
  makes_calls (n1 + n2) (try_except_ClientError m h).
Proof.
  intros Hm Hh w. unfold try_except_ClientError.
  destruct (Hm w) as (k1 & H1 & L1).
  destruct (m w) as [w' [e | x]]; simpl in *.
  - destruct (isinstance_ClientError e).
    + destruct (Hh e w') as (k2 & H2 & L2). exists (k1 ++ k2).
      rewrite H2, H1, length_app, <- app_assoc. split; [done | lia].
    + exists k1. split; [done | lia].
  - exists k1. split; [done | lia].
Qed.

Lemma calls_self_client self : makes_calls (Σ:=Σ) 0 (self_client self).
Proof.
  unfold self_client. apply (calls_bind 0 0); [apply calls_getattr |].
  intros [| s | cl]; (apply calls_raise || apply calls_ret).
Qed.

Lemma calls_get_storage_url self b k :
  makes_calls (Σ:=Σ) 0 (_get_storage_url self b k).
Proof.
  unfold _get_storage_url. apply (calls_bind 0 0); [apply calls_deref |].
  intros [o |]; (apply calls_raise || apply calls_ret).
Qed.

Lemma calls_ensure_directory d : makes_calls (Σ:=Σ) 1 (ensure_directory d).
Proof.
  unfold ensure_directory. destruct (negb _); cbv iota.
  - apply calls_outside_call.
  - intros w. exists []. rewrite app_nil_r. split; [done | simpl; lia].
Qed.

Lemma calls_upload_file self l b k :
  makes_calls (Σ:=Σ) 1 (upload_file self l b k).
Proof.
  unfold upload_file. apply (calls_try 1 0); [| intros e; apply calls_raise].
  apply (calls_bind 0 1); [apply calls_self_client | intros cl].
  apply (calls_bind 1 0); [apply calls_outside_call | intros u].
  apply (calls_bind 0 0); [apply calls_get_storage_url | intros url].
  apply calls_ret.
Qed.

Lemma calls_download_file self b k l :
  makes_calls (Σ:=Σ) 2 (download_file self b k l).
Proof.
  unfold download_file.
  apply (calls_bind 1 1); [apply calls_ensure_directory | intros u].
  apply (calls_try 1 0); [| intros e; apply calls_raise].
  apply (calls_bind 0 1); [apply calls_self_client | intros cl].
  apply (calls_bind 1 0); [apply calls_outside_call | intros u'].
  apply calls_ret.
Qed.

Lemma calls_list_files self b p :
  makes_calls (Σ:=Σ) 1 (list_files self b p).
Proof.
  unfold list_files. apply (calls_try 1 0); [| intros e; apply calls_raise].
  apply (calls_bind 0 1); [apply calls_self_client | intros cl].
  apply (calls_bind 1 0); [| intros r; apply calls_ret].
  destruct (truthy p); cbv iota; apply calls_outside_call.
Qed.

Lemma calls_delete_file self b k :
  makes_calls (Σ:=Σ) 1 (delete_file self b k).
Proof.
  unfold delete_file. apply (calls_try 1 0); [| intros e; apply calls_raise].
  apply (calls_bind 0 1); [apply calls_self_client | intros cl].
  apply (calls_bind 1 0); [apply calls_outside_call | intros u].
  apply calls_ret.
Qed.

Lemma calls_file_exists self b k :
  makes_calls (Σ:=Σ) 1 (file_exists self b k).
Proof.
  unfold file_exists. apply (calls_try 1 0); [| intros e; apply calls_ret].
  apply (calls_bind 0 1); [apply calls_self_client | intros cl].
  apply (calls_bind 1 0); [apply calls_outside_call | intros u].
  apply calls_ret.
Qed.

Lemma calls_get_file_metadata self b k :
  makes_calls (Σ:=Σ) 1 (get_file_metadata self b k).
Proof.
  unfold get_file_metadata.
  apply (calls_try 1 0); [| intros e; apply calls_raise].
  apply (calls_bind 0 1); [apply calls_self_client | intros cl].
  apply (calls_bind 1 0); [apply calls_outside_call | intros r].
  apply calls_ret.
Qed.

(** X11.  Whatever reference and arguments it is given, and whether it
    returns or raises, each of the six operations leaves the environment,
    every object and both [_instance] slots as they are, and makes at most
    one call outside the package (two for [download_file], which may call
    [os.makedirs] first): nothing is retried. *)
Theorem operations_are_stateless act w :
  is_operation act = true →
  environ (exec act w) = environ w
  ∧ heap (exec act w) = heap w
  ∧ (∀ c, cls_instance c (exec act w) = cls_instance c w)
  ∧ ∃ calls,
      history (exec act w) = history w ++ calls
      ∧ length calls ≤ call_budget act.
Proof.
  intros Hop.
  destruct act as [c a | self l b k | self b k l | self b p | self b k
                  | self b k | self b k | k v | k]; try done; simpl.
  - destruct (inner_eq _ _ (preserves_upload_file self l b k w))
      as (? & ? & ?). split_and!; try done. apply calls_upload_file.
  - destruct (inner_eq _ _ (preserves_download_file self b k l w))
      as (? & ? & ?). split_and!; try done. apply calls_download_file.
  - destruct (inner_eq _ _ (preserves_list_files self b p w))
      as (? & ? & ?). split_and!; try done. apply calls_list_files.
  - destruct (inner_eq _ _ (preserves_delete_file self b k w))
      as (? & ? & ?). split_and!; try done. apply calls_delete_file.
  - destruct (inner_eq _ _ (preserves_file_exists self b k w))
      as (? & ? & ?). split_and!; try done. apply calls_file_exists.
  - destruct (inner_eq _ _ (preserves_get_file_metadata self b k w))
      as (? & ? & ?). split_and!; try done. apply calls_get_file_metadata.
Qed.

End Further.

(** * The further properties at work on the in-memory service *)

Section FurtherChecks.

Import Scenario.

(** Closed facts are settled by evaluation. *)
Ltac computed := vm_compute; reflexivity.

Lemma client_built_from_resolved_credentials_witness :
  wf with_s3 = true
  ∧ construct R2Storage r2_keys with_s3 = (with_both, inr 1)
  ∧ ∃ client, attribute with_both 1 "client" = Some (AClient client).
Proof.
  split; [computed |]. split; [computed |].
  destruct (client_built_from_resolved_credentials R2Storage r2_keys with_s3
              with_both 1 ltac:(computed) ltac:(computed))
    as (client & _ & H).
  by exists client.
Defined.

(** A second [S3Storage(...)] call without the secret raises, and the
    client constructed first keeps its handle. *)
Lemma failed_construction_keeps_client_witness :
  wf with_s3 = true
  ∧ (construct S3Storage only_access_key with_s3).2
    = inl (configuration_error S3Storage ["secret_access_key"])
  ∧ attribute (construct S3Storage only_access_key with_s3).1
      (instance_ref S3Storage with_s3) "client"
    = attribute with_s3 (instance_ref S3Storage with_s3) "client".
Proof.
  split; [computed |]. split; [computed |].
  destruct (failed_construction_keeps_client S3Storage only_access_key
              with_s3 (configuration_error S3Storage ["secret_access_key"])
              ltac:(computed) ltac:(computed)) as (_ & H & _).
  exact H.
Defined.

Lemma explicit_credentials_ignore_environment_witness :
  wf (boot s3_environ Mem.example) = true
  ∧ forallb (λ f, truthy (explicit_value first_keys f))
      (required_fields S3Storage) = true
  ∧ credential
      (construct S3Storage first_keys (boot s3_environ Mem.example)).1
      (instance_ref S3Storage (boot s3_environ Mem.example)) "access_key"
    = Some (attr_of (explicit_value first_keys "access_key")).
Proof.
  split; [computed |]. split; [computed |].
  destruct (explicit_credentials_ignore_environment S3Storage first_keys
              (boot s3_environ Mem.example) ltac:(computed) ltac:(computed))
    as (H & _).
  apply H. by left.
Defined.

Lemma exists_agrees_with_metadata_witness :
  attribute with_s3 0 "client" = Some (AClient s3_client)
  ∧ ((file_exists 0 "mybucket" "a/b.txt" with_s3).2 = inr true
     ↔ ∃ m, (get_file_metadata 0 "mybucket" "a/b.txt" with_s3).2 = inr m).
Proof.
  split; [computed |].
  destruct (exists_agrees_with_metadata 0 "mybucket" "a/b.txt" with_s3
              s3_client ltac:(computed)) as (H & _).
  exact H.
Defined.

Lemma delete_file_one_call_witness :
  attribute with_s3 0 "client" = Some (AClient s3_client)
  ∧ history (delete_file 0 "mybucket" "z.txt" with_s3).1
    = history with_s3 ++ [CallDeleteObject "mybucket" "z.txt"].
Proof.
  split; [computed |].
  destruct (delete_file_one_call 0 "mybucket" "z.txt" with_s3 s3_client
              ltac:(computed)) as (H & _).
  exact H.
Defined.

Lemma list_files_without_prefix_witness :
  attribute with_s3 0 "client" = Some (AClient s3_client)
  ∧ list_files 0 "mybucket" (Some "") with_s3
    = list_files 0 "mybucket" None with_s3.
Proof.
  split; [computed |].
  destruct (list_files_without_prefix 0 "mybucket" with_s3 s3_client
              ltac:(computed)) as (H & _).
  exact H.
Defined.

Lemma upload_then_download_by_default_witness :
  attribute with_s3 0 "client" = Some (AClient s3_client)
  ∧ upload_file 0 "dir/report.txt" "mybucket" None with_s3
    = ((upload_file 0 "dir/report.txt" "mybucket" None with_s3).1,
       inr ("report.txt", "s3://mybucket/report.txt"))
  ∧ ∀ p,
      (download_file 0 "mybucket" "report.txt" None
         (upload_file 0 "dir/report.txt" "mybucket" None with_s3).1).2
        = inr p →
      p = "report.txt".
Proof.
  split; [computed |]. split; [computed |].
  destruct (upload_then_download_by_default 0 "dir/report.txt" "mybucket"
              with_s3
              (upload_file 0 "dir/report.txt" "mybucket" None with_s3).1
              "report.txt" "s3://mybucket/report.txt" s3_client
              ltac:(computed) ltac:(computed)) as (_ & _ & _ & H).
  exact H.
Defined.

Lemma makedirs_iff_separator_witness :
  attribute with_s3 0 "client" = Some (AClient s3_client)
  ∧ posixpath.contains posixpath.sep "out/nested/file.txt" = true
  ∧ history (download_file 0 "mybucket" "a/b.txt"
               (Some "out/nested/file.txt") with_s3).1
    = history with_s3
        ++ [CallMakedirs (posixpath.dirname "out/nested/file.txt");
            CallDownload "mybucket" "a/b.txt" "out/nested/file.txt"].
Proof.
  split; [computed |]. split; [computed |].
  destruct (makedirs_iff_separator 0 "mybucket" "a/b.txt"
              (Some "out/nested/file.txt") with_s3 s3_client
              ltac:(computed)) as (_ & H).
  destruct (H ltac:(computed)) as (_ & _ & Hmade).
  apply (Hmade ()). computed.
Defined.

Lemma storage_url_decodes_witness :
  cls_get_storage_url S3Storage "mybucket" "a/b.txt"
    = cls_get_storage_url S3Storage "mybucket" "a/b.txt"
  ∧ no_sep "mybucket"
  ∧ ("mybucket" = "mybucket" ∧ "a/b.txt" = "a/b.txt").
Proof.
  split; [computed |]. split; [computed |].
  destruct (storage_url_decodes S3Storage S3Storage "mybucket" "mybucket"
              "a/b.txt" "a/b.txt" ltac:(computed)) as (_ & H).
  apply H; computed.
Defined.

Lemma operations_are_stateless_witness :
  is_operation
    (DownloadFile 0 "mybucket" "a/b.txt" (Some "out/nested/file.txt")) = true
  ∧ heap (exec
            (DownloadFile 0 "mybucket" "a/b.txt" (Some "out/nested/file.txt"))
            with_s3)
    = heap with_s3.
Proof.
  split; [computed |].
  destruct (operations_are_stateless
              (DownloadFile 0 "mybucket" "a/b.txt"
                 (Some "out/nested/file.txt"))
              with_s3 ltac:(computed)) as (_ & H & _).
  exact H.
Defined.

End FurtherChecks.
